(** * Debounce state machine of the prosthetic-hand sketches

    A shallow embedding of the two debounce sketches of the repository:
    [debounce/debounce.ino] (analog input, module [DebounceIno]) and the
    earlier digital-input sketch (module [Part000]).  Both share the
    structs, the constructors, [can_change] and the [switch] of [is_high];
    they differ in how [current_input] is acquired and in the pins.

    The board (clock, pins, serial line) is explicit state threaded through
    a small state monad: every call of [millis()], [analogRead()] or
    [digitalRead()] consumes one reading of the board, so two calls of
    [millis()] within one poll may read different times.

    [is_high] and [can_change] take their struct by value.  Their models
    return, next to the [bool], the value of that parameter when the
    function returns: this is the "next state" of a poll.  No caller in
    the sketches gets hold of it: [loop] passes the global debouncer again,
    unchanged, on every iteration. *)

From Stdlib Require Import ZArith List Bool Lia String.
Import ListNotations.
Local Open Scope Z_scope.

(** ** Arduino core: levels, [unsigned long], the board *)

(** Pin levels of the Arduino core ([Arduino.h]). *)
Definition HIGH : Z := 1.
Definition LOW : Z := 0.

(** [unsigned long] is 32 bits wide on the boards the sketches target;
    [MAX_UNSIGNED_LONG] below is its largest value. *)
Definition to_ulong (z : Z) : Z := z mod 2 ^ 32.

Inductive SerialItem : Type :=
| PrintInt (n : Z)
| PrintStr (s : string)
| PrintlnBool (b : bool).

Record Board : Type := mkBoard {
  clock : nat -> Z;              (* what the k-th call of millis() reads *)
  clock_reads : nat;             (* calls of millis() so far *)
  analog_in : nat -> Z -> Z;     (* k-th pin read, as analogRead(pin) *)
  digital_in : nat -> Z -> bool; (* k-th pin read, as digitalRead(pin) *)
  pin_reads : nat;               (* pin reads so far *)
  serial : list SerialItem;      (* Serial output, newest first *)
  stdout : list string;          (* printf output, newest first *)
  pin_writes : list (Z * Z)      (* digitalWrite(pin, level), newest first *)
}.

Definition M (A : Type) : Type := Board -> A * Board.

Definition ret {A : Type} (a : A) : M A := fun b => (a, b).

Definition bind {A B : Type} (m : M A) (k : A -> M B) : M B :=
  fun b => let (a, b') := m b in k a b'.

Notation "x <- m ;; k" := (bind m (fun x => k))
  (at level 61, m at next level, right associativity).
Notation "m ;; k" := (bind m (fun _ => k))
  (at level 61, right associativity).

Definition millis : M Z := fun b =>
  (to_ulong (clock b (clock_reads b)),
   mkBoard (clock b) (S (clock_reads b)) (analog_in b) (digital_in b)
           (pin_reads b) (serial b) (stdout b) (pin_writes b)).

Definition analogRead (pin : Z) : M Z := fun b =>
  (analog_in b (pin_reads b) pin,
   mkBoard (clock b) (clock_reads b) (analog_in b) (digital_in b)
           (S (pin_reads b)) (serial b) (stdout b) (pin_writes b)).

Definition digitalRead (pin : Z) : M Z := fun b =>
  (if digital_in b (pin_reads b) pin then HIGH else LOW,
   mkBoard (clock b) (clock_reads b) (analog_in b) (digital_in b)
           (S (pin_reads b)) (serial b) (stdout b) (pin_writes b)).

Definition Serial_write (item : SerialItem) : M unit := fun b =>
  (tt,
   mkBoard (clock b) (clock_reads b) (analog_in b) (digital_in b)
           (pin_reads b) (item :: serial b) (stdout b) (pin_writes b)).

Definition printf (s : string) : M unit := fun b =>
  (tt,
   mkBoard (clock b) (clock_reads b) (analog_in b) (digital_in b)
           (pin_reads b) (serial b) (s :: stdout b) (pin_writes b)).

Definition digitalWrite (pin level : Z) : M unit := fun b =>
  (tt,
   mkBoard (clock b) (clock_reads b) (analog_in b) (digital_in b)
           (pin_reads b) (serial b) (stdout b) ((pin, level) :: pin_writes b)).

(** The reading of the most recent [millis()] call on a board. *)
Definition last_millis (b : Board) : Z :=
  to_ulong (clock b (pred (clock_reads b))).

(** A board at power-up whose clock and pins follow the given lists. *)
Definition board_of (times samples : list Z) : Board :=
  mkBoard (fun k => nth k times 0) 0%nat
          (fun k _ => nth k samples 0)
          (fun k _ => negb (nth k samples 0 =? 0)) 0%nat
          [] [] [].

(** ** Constants *)

Definition MAX_UNSIGNED_LONG : Z := 4294967295.
Definition CHANGE_STATE_INTERVAL : Z := 250.
(** Declared in [debounce.ino] only; no function of the sketch reads it. *)
Definition HIGH_THREASHOLD : Z := 500.

(** ** Enums and structs *)

Inductive DebounceState : Type :=
| Low
| PossibleHigh
| High
| PossibleLow.

(** The integer an enumerator converts to, in declaration order. *)
Definition enum_value (s : DebounceState) : Z :=
  match s with
  | Low => 0
  | PossibleHigh => 1
  | High => 2
  | PossibleLow => 3
  end.

Module ChangeAble.
Record t : Type := mk {
  can_change : bool;
  last_time : Z
}.
End ChangeAble.

Record Debouncer : Type := mkDebouncer {
  state : DebounceState;
  change : ChangeAble.t;
  pin : Z
}.

Definition set_state (s : DebounceState) (d : Debouncer) : Debouncer :=
  mkDebouncer s (change d) (pin d).

Definition set_change (c : ChangeAble.t) (d : Debouncer) : Debouncer :=
  mkDebouncer (state d) c (pin d).

(** ** Default constructors *)

Definition default_debounce_state : DebounceState := Low.

Definition default_change_able : M ChangeAble.t :=
  t <- millis ;;
  ret (ChangeAble.mk true t).

Definition new_debouncer (pin : Z) : M Debouncer :=
  c <- default_change_able ;;
  ret (mkDebouncer default_debounce_state c pin).

(** ** Logic *)

(** [can_change] takes its [ChangeAble] by value.  The result pairs the
    returned [bool] with the value of the parameter [c] when the function
    returns; the caller's own [ChangeAble] is never written. *)
Definition can_change (c : ChangeAble.t) (interval_milli_seconds : Z)
  : M (bool * ChangeAble.t) :=
  if ChangeAble.can_change c then ret (true, c)
  else
    current_time <- millis ;;
    if current_time <? ChangeAble.last_time c then
      (* millis() overflowed *)
      let total_time := MAX_UNSIGNED_LONG in
      let diffrence := to_ulong (total_time - ChangeAble.last_time c) in
      let current_total_time := to_ulong (diffrence + current_time) in
      if current_total_time >? interval_milli_seconds then
        ret (true, ChangeAble.mk true (ChangeAble.last_time c))
      else ret (false, c)
    else if to_ulong (current_time - ChangeAble.last_time c)
            >=? interval_milli_seconds then
      ret (true, ChangeAble.mk true (ChangeAble.last_time c))
    else ret (false, c).

(** [a && f()]: the right operand runs only when the left one holds. *)
Definition and_then (a : bool) (m : M bool) : M bool :=
  if a then m else ret false.

(** The [switch] of [is_high], the same text in both sketches.  The
    selector is compared with the case labels in turn.  [Some r] is a
    [return r] taken inside the switch and [None] is control leaving the
    switch; the second component is the local [debouncer] at that point. *)
Definition state_switch (current_input : Z) (debouncer : Debouncer)
  : M (option bool * Debouncer) :=
  let selector := enum_value (state debouncer) in
  if selector =? enum_value Low then
    if current_input =? HIGH then
      c <- default_change_able ;;
      let debouncer := set_change c debouncer in
      let debouncer := set_state PossibleHigh debouncer in
      ret (Some false, debouncer)
    else ret (Some false, debouncer)
  else if selector =? enum_value PossibleHigh then
    ok <- and_then (current_input =? HIGH)
            (r <- can_change (change debouncer) CHANGE_STATE_INTERVAL ;;
             ret (fst r)) ;;
    if ok then
      let debouncer := set_state High debouncer in
      c <- default_change_able ;;
      let debouncer := set_change c debouncer in
      ret (Some true, debouncer)
    else if current_input =? LOW then
      let debouncer := set_state Low debouncer in
      c <- default_change_able ;;
      let debouncer := set_change c debouncer in
      ret (Some false, debouncer)
    else ret (Some false, debouncer)
  else if selector =? enum_value High then
    if current_input =? enum_value Low then
      c <- default_change_able ;;
      let debouncer := set_change c debouncer in
      let debouncer := set_state PossibleLow debouncer in
      ret (Some true, debouncer)
    else ret (Some true, debouncer)
  else if selector =? enum_value PossibleLow then
    ok <- and_then (current_input =? LOW)
            (r <- can_change (change debouncer) CHANGE_STATE_INTERVAL ;;
             ret (fst r)) ;;
    if ok then
      c <- default_change_able ;;
      let debouncer := set_change c debouncer in
      let debouncer := set_state Low debouncer in
      ret (Some false, debouncer)
    else if current_input =? HIGH then
      let debouncer := set_state High debouncer in
      c <- default_change_able ;;
      let debouncer := set_change c debouncer in
      ret (Some true, debouncer)
    else ret (Some true, debouncer)
  else ret (None, debouncer).

(** The two globals of either sketch that hold debouncers. *)
Record Globals : Type := mkGlobals {
  bend_pin_debouncer : Debouncer;
  unbend_pin_debouncer : Debouncer
}.

(** *** [debounce/debounce.ino] *)
Module DebounceIno.

(** Lines 61-65 of [is_high]: the sample becomes a level. *)
Definition threshold (current_input : Z) : Z :=
  if current_input >? 155 then HIGH else LOW.

(** [is_high] takes the [Debouncer] by value.  The result pairs the
    returned [bool] with the local [debouncer] when the function returns. *)
Definition is_high (debouncer : Debouncer) : M (bool * Debouncer) :=
  current_input <- analogRead (pin debouncer) ;;
  Serial_write (PrintInt current_input) ;;
  Serial_write (PrintStr ",") ;;
  let current_input := threshold current_input in
  r <- state_switch current_input debouncer ;;
  match fst r with
  | Some result => ret (result, snd r)
  | None =>
      printf "%i] got to unreachable area and isn't signal high!" ;;
      ret (false, snd r)
  end.

Definition refrence_pin : Z := 14.
Definition bend_pin : Z := 17.
Definition unbend_pin : Z := 16.

(** The initialisers of the two global debouncers. *)
Definition globals : M Globals :=
  b <- new_debouncer bend_pin ;;
  u <- new_debouncer unbend_pin ;;
  ret (mkGlobals b u).

(** [loop] hands [bend_pin_debouncer] to [is_high] by value: the global
    is the same after the call. *)
Definition loop (g : Globals) : M (bool * Globals) :=
  r <- is_high (bend_pin_debouncer g) ;;
  let finger_should_bend := fst r in
  Serial_write (PrintlnBool finger_should_bend) ;;
  (if finger_should_bend then digitalWrite 13 HIGH
   else digitalWrite 13 LOW) ;;
  ret (finger_should_bend, g).

End DebounceIno.

(** *** The digital-input sketch *)
Module Part000.

Definition is_high (debouncer : Debouncer) : M (bool * Debouncer) :=
  current_input <- digitalRead (pin debouncer) ;;
  r <- state_switch current_input debouncer ;;
  match fst r with
  | Some result => ret (result, snd r)
  | None =>
      printf "%i] got to unreachable area in is signal high!" ;;
      ret (false, snd r)
  end.

Definition refrence_pin : Z := 0.
Definition bend_pin : Z := 1.
Definition unbend_pin : Z := 2.

(** The initialisers of the two global debouncers. *)
Definition globals : M Globals :=
  b <- new_debouncer bend_pin ;;
  u <- new_debouncer unbend_pin ;;
  ret (mkGlobals b u).

(** Both debouncers go to [is_high] by value here too. *)
Definition loop (g : Globals) : M (bool * bool * Globals) :=
  r1 <- is_high (bend_pin_debouncer g) ;;
  let finger_should_bend := fst r1 in
  r2 <- is_high (unbend_pin_debouncer g) ;;
  let finger_should_extend := fst r2 in
  ret (finger_should_bend, finger_should_extend, g).

End Part000.

(** The states [is_high] documents as reported high ("Returns true if High
    or Possible Low"). *)
Definition is_on (s : DebounceState) : bool :=
  match s with
  | High | PossibleLow => true
  | Low | PossibleHigh => false
  end.

(** Debouncer values that poll sequences can produce: what [new_debouncer]
    builds, closed under a poll of either sketch. *)
Inductive reachable : Debouncer -> Prop :=
| reach_new : forall pin b, reachable (fst (new_debouncer pin b))
| reach_analog : forall d b,
    reachable d -> reachable (snd (fst (DebounceIno.is_high d b)))
| reach_digital : forall d b,
    reachable d -> reachable (snd (fst (Part000.is_high d b))).

(** [loop()] called [n] times in a row, as the Arduino core's [main] calls
    it: the globals one call leaves go to the next, and the values of the
    locals of each call are collected. *)
Fixpoint repeat_loop {A G : Type} (loop : G -> M (A * G)) (n : nat) (g : G)
  : M (list A * G) :=
  match n with
  | O => ret ([], g)
  | S n' =>
      r <- loop g ;;
      rest <- repeat_loop loop n' (snd r) ;;
      ret (fst r :: fst rest, snd rest)
  end.

(** *** The servo sketch (second sketch in [debounce/debounce.ino]) *)
Module ServoSketch.

Definition to_uint32 (z : Z) : Z := z mod 2 ^ 32.
Definition to_uint16 (z : Z) : Z := z mod 2 ^ 16.
Definition to_uint8 (z : Z) : Z := z mod 2 ^ 8.

(** Conversion to [int16_t]: the value modulo 2^16 that lies in
    [-32768, 32767]. *)
Definition to_int16 (z : Z) : Z := (z + 2 ^ 15) mod 2 ^ 16 - 2 ^ 15.

Inductive EmgState : Type :=
| Relaxed
| Intermediate
| Clenched.

Module RNG.

Record t : Type := mk {
  value : Z
}.

Definition new (seed : Z) : t := mk (to_uint32 seed).

(** [next()] returns the new [value] and leaves it in the generator. *)
Definition next (g : t) : Z * t :=
  let value := value g in
  let value := to_uint32 (value * 0x6C8E9CF5) in
  let value := Z.lxor value (Z.shiftr value 13) in
  let value := to_uint32 (value + 0xB5297A4D) in
  let value := Z.lxor value (to_uint32 (Z.shiftl value 17)) in
  let value := to_uint32 (value - 0xD6E8FEB8) in
  let value := Z.lxor value (Z.shiftr value 5) in
  (value, mk value).

(** [next() % bound]; the source divides by zero for [bound = 0]. *)
Definition next_bounded (g : t) (bound : Z) : Z * t :=
  let (v, g') := next g in
  (v mod bound, g').

End RNG.

Module EMGSimulator.

Record t : Type := mk {
  step_count : Z;
  emg_state : EmgState;
  phase : Z;
  spike_remaining : Z;
  number_generator : RNG.t
}.

Definition new (generator : RNG.t) : t := mk 0 Relaxed 0 0 generator.

(** [next()] returns the sample and the simulator it leaves. *)
Definition next (sim : t) : Z * t :=
  let (n, number_generator) :=
    RNG.next_bounded (number_generator sim) 1024 in
  let noise := to_uint16 n in
  let step_count := to_uint32 (step_count sim + 1) in
  let phase := to_uint16 (phase sim + 17) in
  let emg_state :=
    if step_count mod 1000 =? 0 then
      let r := to_uint16 (noise mod 100) in
      if r <? 50 then Relaxed
      else if r <? 80 then Intermediate
      else Clenched
    else emg_state sim in
  let spike_remaining :=
    if (spike_remaining sim =? 0) && (noise mod 200 =? 0) then
      to_uint8 (noise mod 5 + 1)
    else spike_remaining sim in
  if spike_remaining >? 0 then
    let spike_remaining := to_uint8 (spike_remaining - 1) in
    (1023, mk step_count emg_state phase spike_remaining number_generator)
  else
    let '(baseline, amplitude) :=
      match emg_state with
      | Relaxed => (200, 50)
      | Intermediate => (620, 30)
      | Clenched => (940, 10)
      end in
    let jitter := to_int16 (noise mod (2 * amplitude) - amplitude) in
    let artifact := if phase mod 256 <? 128 then 3 else -3 in
    let signal := to_int16 (baseline + jitter + artifact) in
    let signal := if signal <? 0 then 0 else signal in
    let signal := if signal >? 1023 then 1023 else signal in
    (to_uint16 signal,
     mk step_count emg_state phase spike_remaining number_generator).

End EMGSimulator.

(** Samples drawn in a row from a simulator. *)
Fixpoint samples (n : nat) (sim : EMGSimulator.t) : list Z * EMGSimulator.t :=
  match n with
  | O => ([], sim)
  | S n' =>
      let (x, sim') := EMGSimulator.next sim in
      let (xs, sim'') := samples n' sim' in
      (x :: xs, sim'')
  end.

(** Convert 0-1023 to 0-90 degrees. *)
Definition from_1023_to_90 (number : Z) : Z :=
  to_uint16 (to_uint32 (to_uint32 number * 90) / 1023).

End ServoSketch.

(** * Proofs *)

(** ** Tactics for running the monad *)

Ltac eval_eqb :=
  repeat match goal with
         | |- context [Z.eqb ?a ?b] =>
             match a with Z0 => idtac | Zpos _ => idtac end;
             match b with Z0 => idtac | Zpos _ => idtac end;
             let v := eval vm_compute in (Z.eqb a b) in
             change (Z.eqb a b) with v
         end.

Ltac unfold_switch :=
  cbv beta iota zeta delta
    [state_switch and_then can_change default_change_able millis bind ret
     set_state set_change enum_value state change pin HIGH LOW
     ChangeAble.can_change ChangeAble.last_time fst snd];
  eval_eqb; cbv beta iota.

Ltac split_ifs :=
  repeat match goal with
         | |- context [if ?c then _ else _] =>
             lazymatch c with
             | context [if _ then _ else _] => fail
             | _ => let E := fresh "E" in destruct c eqn:E; cbv beta iota
             end
         end.

(** ** The clock and the gate *)

Lemma to_ulong_range (z : Z) : 0 <= to_ulong z <= MAX_UNSIGNED_LONG.
Proof.
  unfold to_ulong, MAX_UNSIGNED_LONG.
  pose proof (Z.mod_pos_bound z (2 ^ 32) ltac:(lia)). lia.
Qed.

Lemma to_ulong_small (z : Z) : 0 <= z <= MAX_UNSIGNED_LONG -> to_ulong z = z.
Proof.
  unfold to_ulong, MAX_UNSIGNED_LONG. intros H. apply Z.mod_small. lia.
Qed.

Lemma default_change_able_eq (b : Board) :
  fst (default_change_able b) =
    ChangeAble.mk true (last_millis (snd (default_change_able b))) /\
  clock_reads (snd (default_change_able b)) = S (clock_reads b).
Proof. split; reflexivity. Qed.

Lemma can_change_fast (c : ChangeAble.t) (interval : Z) (b : Board) :
  ChangeAble.can_change c = true ->
  can_change c interval b = ((true, c), b).
Proof.
  intros H. unfold can_change. rewrite H. reflexivity.
Qed.

(** What [can_change] computes on a gate that is not eligible, for a
    [last_time] that is an [unsigned long]. *)
Lemma can_change_slow (c : ChangeAble.t) (interval : Z) (b : Board) :
  ChangeAble.can_change c = false ->
  0 <= ChangeAble.last_time c <= MAX_UNSIGNED_LONG ->
  let now := to_ulong (clock b (clock_reads b)) in
  let last := ChangeAble.last_time c in
  fst (fst (can_change c interval b)) =
    (if now <? last then MAX_UNSIGNED_LONG - last + now >? interval
     else now - last >=? interval) /\
  clock_reads (snd (can_change c interval b)) = S (clock_reads b).
Proof.
  intros Hc Hl now last. destruct c as [f t]. cbn [ChangeAble.can_change] in Hc.
  cbn [ChangeAble.last_time] in Hl. subst f last now.
  cbv beta iota zeta delta [can_change millis bind ret ChangeAble.can_change
                            ChangeAble.last_time fst snd].
  pose proof (to_ulong_range (clock b (clock_reads b))) as Hn.
  set (now := to_ulong (clock b (clock_reads b))) in *.
  destruct (now <? t) eqn:E.
  - apply Z.ltb_lt in E.
    rewrite (to_ulong_small (MAX_UNSIGNED_LONG - t)) by lia.
    rewrite (to_ulong_small (MAX_UNSIGNED_LONG - t + now)) by lia.
    destruct (MAX_UNSIGNED_LONG - t + now >? interval); split; reflexivity.
  - apply Z.ltb_ge in E.
    rewrite (to_ulong_small (now - t)) by lia.
    destruct (now - t >=? interval); split; reflexivity.
Qed.

(** ** The switch *)

Lemma switch_returns (current_input : Z) (d : Debouncer) (b : Board) :
  exists out, fst (fst (state_switch current_input d b)) = Some out.
Proof.
  destruct d as [s [f t] p]. destruct s; unfold_switch; split_ifs; eauto.
Qed.

Lemma switch_output (current_input : Z) (d : Debouncer) (b : Board) :
  fst (fst (state_switch current_input d b)) =
  Some (is_on (state (snd (fst (state_switch current_input d b))))).
Proof.
  destruct d as [s [f t] p]. destruct s; unfold_switch; split_ifs; reflexivity.
Qed.

(** A run of the switch either leaves the debouncer as it was, or moves it
    to another state with the gate built by [default_change_able] from the
    last clock reading of the run. *)
Lemma switch_gate (current_input : Z) (d : Debouncer) (b : Board) :
  let r := state_switch current_input d b in
  snd (fst r) = d \/
  (state (snd (fst r)) <> state d /\
   change (snd (fst r)) = ChangeAble.mk true (last_millis (snd r)) /\
   pin (snd (fst r)) = pin d /\
   (clock_reads b < clock_reads (snd r))%nat).
Proof.
  destruct d as [s [f t] p].
  destruct s; unfold_switch; split_ifs;
    solve [ left; reflexivity
          | right; cbn [last_millis clock clock_reads pred];
            repeat split; try discriminate; lia ].
Qed.

Lemma switch_board (current_input : Z) (d : Debouncer) (b : Board) :
  let b' := snd (state_switch current_input d b) in
  clock b' = clock b /\ stdout b' = stdout b /\
  (clock_reads b <= clock_reads b')%nat.
Proof.
  destruct d as [s [f t] p].
  destruct s; unfold_switch; split_ifs; cbn; repeat split; lia.
Qed.

(** With an eligible gate the switch never waits: the two provisional
    states are left on the first poll, whatever the clock reads. *)
Lemma switch_eligible (current_input : Z) (d : Debouncer) (b : Board) :
  ChangeAble.can_change (change d) = true ->
  current_input = HIGH \/ current_input = LOW ->
  state (snd (fst (state_switch current_input d b))) =
    match state d with
    | Low => if current_input =? HIGH then PossibleHigh else Low
    | PossibleHigh => if current_input =? HIGH then High else Low
    | High => if current_input =? HIGH then High else PossibleLow
    | PossibleLow => if current_input =? HIGH then High else Low
    end.
Proof.
  destruct d as [s [f t] p]. cbn [change ChangeAble.can_change state].
  intros -> [-> | ->]; destruct s; unfold_switch; reflexivity.
Qed.

(** ** [is_high] in terms of the switch *)

Lemma threshold_spec (sample : Z) :
  (DebounceIno.threshold sample = HIGH <-> sample > 155) /\
  (DebounceIno.threshold sample = LOW <-> sample <= 155).
Proof.
  unfold DebounceIno.threshold, HIGH, LOW.
  destruct (sample >? 155) eqn:E.
  - apply Z.gtb_lt in E. split; split; intros; try reflexivity; lia.
  - rewrite Z.gtb_ltb in E. apply Z.ltb_ge in E.
    split; split; intros; try reflexivity; lia.
Qed.

Lemma analog_is_high_switch (d : Debouncer) (b : Board) :
  exists b1 out,
    clock b1 = clock b /\ clock_reads b1 = clock_reads b /\
    stdout b1 = stdout b /\
    let current_input :=
      DebounceIno.threshold (analog_in b (pin_reads b) (pin d)) in
    fst (fst (state_switch current_input d b1)) = Some out /\
    DebounceIno.is_high d b =
      ((out, snd (fst (state_switch current_input d b1))),
       snd (state_switch current_input d b1)).
Proof.
  unfold DebounceIno.is_high, bind, analogRead, Serial_write. cbv beta iota.
  match goal with
  | |- context [state_switch ?ci d ?b1] =>
      exists b1; destruct (switch_returns ci d b1) as [out H]; exists out;
      cbv zeta; rewrite H; repeat split; try reflexivity;
      destruct (state_switch ci d b1) as [[o d'] b2]
  end.
  cbn [fst snd] in *. subst o. reflexivity.
Qed.

Lemma digital_is_high_switch (d : Debouncer) (b : Board) :
  exists b1 out,
    clock b1 = clock b /\ clock_reads b1 = clock_reads b /\
    stdout b1 = stdout b /\
    let current_input :=
      if digital_in b (pin_reads b) (pin d) then HIGH else LOW in
    fst (fst (state_switch current_input d b1)) = Some out /\
    Part000.is_high d b =
      ((out, snd (fst (state_switch current_input d b1))),
       snd (state_switch current_input d b1)).
Proof.
  unfold Part000.is_high, bind, digitalRead. cbv beta iota.
  match goal with
  | |- context [state_switch ?ci d ?b1] =>
      exists b1; destruct (switch_returns ci d b1) as [out H]; exists out;
      cbv zeta; rewrite H; repeat split; try reflexivity;
      destruct (state_switch ci d b1) as [[o d'] b2]
  end.
  cbn [fst snd] in *. subst o. reflexivity.
Qed.

(** Either sketch's poll leaves the debouncer as it was, or changes its
    state and installs the gate [{true, now}], [now] being the last reading
    of [millis()] taken during the poll. *)
Lemma analog_poll_gate (d : Debouncer) (b : Board) :
  let r := DebounceIno.is_high d b in
  snd (fst r) = d \/
  (state (snd (fst r)) <> state d /\
   change (snd (fst r)) = ChangeAble.mk true (last_millis (snd r)) /\
   (clock_reads b < clock_reads (snd r))%nat).
Proof.
  destruct (analog_is_high_switch d b) as (b1 & out & _ & Hn & _ & _ & ->).
  cbn [fst snd].
  match goal with
  | |- context [state_switch ?ci d b1] =>
      destruct (switch_gate ci d b1) as [H | (H1 & H2 & _ & H4)]
  end.
  - left. exact H.
  - right. rewrite <- Hn. auto.
Qed.

Lemma digital_poll_gate (d : Debouncer) (b : Board) :
  let r := Part000.is_high d b in
  snd (fst r) = d \/
  (state (snd (fst r)) <> state d /\
   change (snd (fst r)) = ChangeAble.mk true (last_millis (snd r)) /\
   (clock_reads b < clock_reads (snd r))%nat).
Proof.
  destruct (digital_is_high_switch d b) as (b1 & out & _ & Hn & _ & _ & ->).
  cbn [fst snd].
  match goal with
  | |- context [state_switch ?ci d b1] =>
      destruct (switch_gate ci d b1) as [H | (H1 & H2 & _ & H4)]
  end.
  - left. exact H.
  - right. rewrite <- Hn. auto.
Qed.

(** An eligible gate stays eligible across a poll. *)
Lemma analog_poll_keeps_eligible (d : Debouncer) (b : Board) :
  ChangeAble.can_change (change d) = true ->
  ChangeAble.can_change (change (snd (fst (DebounceIno.is_high d b)))) = true.
Proof.
  intros H. destruct (analog_poll_gate d b) as [E | (_ & E & _)];
    rewrite E; [exact H | reflexivity].
Qed.

Lemma digital_poll_keeps_eligible (d : Debouncer) (b : Board) :
  ChangeAble.can_change (change d) = true ->
  ChangeAble.can_change (change (snd (fst (Part000.is_high d b)))) = true.
Proof.
  intros H. destruct (digital_poll_gate d b) as [E | (_ & E & _)];
    rewrite E; [exact H | reflexivity].
Qed.

Lemma reachable_eligible (d : Debouncer) :
  reachable d -> ChangeAble.can_change (change d) = true.
Proof.
  induction 1 as [p b | d b _ IH | d b _ IH].
  - reflexivity.
  - apply analog_poll_keeps_eligible, IH.
  - apply digital_poll_keeps_eligible, IH.
Qed.

Lemma analog_poll_output (d : Debouncer) (b : Board) :
  fst (fst (DebounceIno.is_high d b)) =
  is_on (state (snd (fst (DebounceIno.is_high d b)))).
Proof.
  destruct (analog_is_high_switch d b) as (b1 & out & _ & _ & _ & Ho & ->).
  cbv zeta in Ho. rewrite switch_output in Ho. injection Ho as Ho.
  cbn [fst snd]. symmetry. exact Ho.
Qed.

Lemma digital_poll_output (d : Debouncer) (b : Board) :
  fst (fst (Part000.is_high d b)) =
  is_on (state (snd (fst (Part000.is_high d b)))).
Proof.
  destruct (digital_is_high_switch d b) as (b1 & out & _ & _ & _ & Ho & ->).
  cbv zeta in Ho. rewrite switch_output in Ho. injection Ho as Ho.
  cbn [fst snd]. symmetry. exact Ho.
Qed.

Lemma switch_Low_false (current_input : Z) (d : Debouncer) (b : Board) :
  state d = Low ->
  fst (fst (state_switch current_input d b)) = Some false.
Proof.
  destruct d as [s c p]. cbn [state]. intros ->.
  unfold_switch; split_ifs; reflexivity.
Qed.

(** [loop] of [debounce.ino] passes the global by value: the global is never
    written, and a global in state [Low] makes every iteration report
    [false]. *)
Lemma loop_by_value (g : Globals) (b : Board) :
  snd (fst (DebounceIno.loop g b)) = g /\
  (state (bend_pin_debouncer g) = Low ->
   fst (fst (DebounceIno.loop g b)) = false).
Proof.
  destruct (analog_is_high_switch (bend_pin_debouncer g) b)
    as (b1 & out & _ & _ & _ & Ho & E).
  cbv zeta in Ho. unfold DebounceIno.loop, bind. rewrite E.
  destruct out; cbn; split; try reflexivity; intros HL;
    rewrite (switch_Low_false _ _ _ HL) in Ho; congruence.
Qed.

Lemma analog_poll_stdout (d : Debouncer) (b : Board) :
  stdout (snd (DebounceIno.is_high d b)) = stdout b.
Proof.
  destruct (analog_is_high_switch d b) as (b1 & out & _ & _ & Hs & _ & ->).
  cbn [snd]. rewrite <- Hs. apply switch_board.
Qed.

Lemma digital_poll_stdout (d : Debouncer) (b : Board) :
  stdout (snd (Part000.is_high d b)) = stdout b.
Proof.
  destruct (digital_is_high_switch d b) as (b1 & out & _ & _ & Hs & _ & ->).
  cbn [snd]. rewrite <- Hs. apply switch_board.
Qed.

Lemma is_on_true (s : DebounceState) :
  is_on s = true <-> s = High \/ s = PossibleLow.
Proof.
  destruct s; cbn; split; intros H; try discriminate; auto;
    destruct H; discriminate.
Qed.

Lemma is_on_false (s : DebounceState) :
  is_on s = false <-> s = Low \/ s = PossibleHigh.
Proof.
  destruct s; cbn; split; intros H; try discriminate; auto;
    destruct H; discriminate.
Qed.

(** With an eligible gate the next state of a poll depends on the state
    and the sample alone: no reading of the clock enters it, and a
    provisional state is left on the first poll. *)
Lemma eligible_poll_ignores_clock (d : Debouncer) (b : Board) :
  ChangeAble.can_change (change d) = true ->
  state (snd (fst (DebounceIno.is_high d b))) =
    let high := analog_in b (pin_reads b) (pin d) >? 155 in
    match state d with
    | Low => if high then PossibleHigh else Low
    | PossibleHigh => if high then High else Low
    | High => if high then High else PossibleLow
    | PossibleLow => if high then High else Low
    end.
Proof.
  intros Hr.
  destruct (analog_is_high_switch d b) as (b1 & out & _ & _ & _ & _ & ->).
  cbn [fst snd]. cbv zeta. rewrite switch_eligible; [| exact Hr |].
  - unfold DebounceIno.threshold.
    destruct (analog_in b (pin_reads b) (pin d) >? 155); reflexivity.
  - unfold DebounceIno.threshold.
    destruct (analog_in b (pin_reads b) (pin d) >? 155); auto.
Qed.

(** Every reachable debouncer is in that case. *)
Lemma reachable_poll_ignores_clock (d : Debouncer) (b : Board) :
  reachable d ->
  state (snd (fst (DebounceIno.is_high d b))) =
    let high := analog_in b (pin_reads b) (pin d) >? 155 in
    match state d with
    | Low => if high then PossibleHigh else Low
    | PossibleHigh => if high then High else Low
    | High => if high then High else PossibleLow
    | PossibleLow => if high then High else Low
    end.
Proof.
  intros Hr. apply eligible_poll_ignores_clock, reachable_eligible, Hr.
Qed.

Lemma switch_pins (current_input : Z) (d : Debouncer) (b : Board) :
  let r := state_switch current_input d b in
  pin (snd (fst r)) = pin d /\
  analog_in (snd r) = analog_in b /\ pin_reads (snd r) = pin_reads b.
Proof.
  destruct d as [s [f t] p].
  destruct s; unfold_switch; split_ifs; cbn; repeat split.
Qed.

Lemma analog_poll_pins (d : Debouncer) (b : Board) :
  let r := DebounceIno.is_high d b in
  pin (snd (fst r)) = pin d /\
  analog_in (snd r) = analog_in b /\ pin_reads (snd r) = S (pin_reads b).
Proof.
  unfold DebounceIno.is_high, bind, analogRead, Serial_write. cbv beta iota.
  match goal with
  | |- context [state_switch ?ci d ?b1] =>
      destruct (switch_returns ci d b1) as [out H];
      pose proof (switch_pins ci d b1) as (H1 & H2 & H3);
      destruct (state_switch ci d b1) as [[o d'] b2]
  end.
  cbn [fst snd] in *. subst o. cbn [fst snd ret].
  cbn [analog_in pin_reads] in H2, H3. auto.
Qed.

(** From [Low], a sample above the threshold enters [PossibleHigh] with a
    gate that is eligible at once. *)
Lemma low_high_poll (d : Debouncer) (b : Board) :
  state d = Low ->
  analog_in b (pin_reads b) (pin d) > 155 ->
  let r := DebounceIno.is_high d b in
  fst (fst r) = false /\ state (snd (fst r)) = PossibleHigh /\
  ChangeAble.can_change (change (snd (fst r))) = true.
Proof.
  intros Hs Hh.
  destruct (analog_is_high_switch d b) as (b1 & out & _ & _ & _ & Ho & E).
  cbv zeta in *. rewrite E. clear E. cbn [fst snd].
  apply (proj2 (proj1 (threshold_spec _))) in Hh. rewrite Hh in *. clear Hh.
  destruct d as [s [f t] p]. cbn [state] in Hs. subst s. revert Ho.
  unfold_switch. intros Ho. injection Ho as <-. repeat split.
Qed.

(** ** The claims *)

(** C2, as the code has it.  In [PossibleHigh] with a sample above the
    threshold, 1 ms after the gate's [last_time], the claim wants the state
    kept and [false] returned; the code moves to [High] and returns [true],
    because the gate's [can_change] field is [true].  With the same gate
    not eligible the poll does wait. *)
Theorem possible_high_commits_before_interval :
  let d := mkDebouncer PossibleHigh (ChangeAble.mk true 1000) 17 in
  let d' := mkDebouncer PossibleHigh (ChangeAble.mk false 1000) 17 in
  fst (DebounceIno.is_high d (board_of [1001] [600])) =
    (true, mkDebouncer High (ChangeAble.mk true 1001) 17) /\
  fst (DebounceIno.is_high d' (board_of [1001; 1002] [600])) = (false, d') /\
  1001 - 1000 < CHANGE_STATE_INTERVAL.
Proof. vm_compute. repeat split; reflexivity. Qed.



(** The six transitions of the switch, each taken by one poll from a
    fresh gate, and the gate found afterwards. *)
Example six_transitions :
  let g := ChangeAble.mk true 0 in
  let poll s sample :=
    snd (fst (DebounceIno.is_high (mkDebouncer s g 17)
                (board_of [1000] [sample]))) in
  let reset s := mkDebouncer s (ChangeAble.mk true 1000) 17 in
  poll Low 600 = reset PossibleHigh /\
  poll PossibleHigh 600 = reset High /\
  poll PossibleHigh 0 = reset Low /\
  poll High 0 = reset PossibleLow /\
  poll PossibleLow 0 = reset Low /\
  poll PossibleLow 600 = reset High.
Proof. vm_compute. repeat split; reflexivity. Qed.

(** C4.  In every debouncer reachable from [new_debouncer] by polls, the
    gate's [can_change] field is [true]; so [can_change] called on that gate
    returns [true] with the gate and the board as they were: [millis()] is
    not called, and the two branches that compute the elapsed time, which
    come after that call, are not entered. *)
Theorem reachable_gate_always_eligible (d : Debouncer) :
  reachable d ->
  ChangeAble.can_change (change d) = true /\
  forall (interval : Z) (b : Board),
    can_change (change d) interval b = ((true, change d), b).
Proof.
  intros H. apply reachable_eligible in H. split; [exact H |].
  intros interval b. apply can_change_fast, H.
Qed.

Lemma reachable_gate_always_eligible_witness :
  let d0 := fst (new_debouncer 17 (board_of [1000] [])) in
  let d1 := snd (fst (DebounceIno.is_high d0 (board_of [1001] [600]))) in
  reachable d1 /\
  ChangeAble.can_change (change d1) = true /\
  forall (interval : Z) (b : Board),
    can_change (change d1) interval b = ((true, change d1), b).
Proof.
  intros d0 d1.
  assert (H : reachable d1) by (apply reach_analog, reach_new).
  split; [exact H | exact (reachable_gate_always_eligible d1 H)].
Defined.

(** C5.  For every debouncer, reachable or not, and every board, the
    [bool] a poll returns is [true] exactly when the state the poll leaves
    is [High] or [PossibleLow], and [false] exactly when it is [Low] or
    [PossibleHigh]; in both sketches. *)
Theorem output_true_iff_high_or_possible_low (d : Debouncer) (b : Board) :
  let r := DebounceIno.is_high d b in
  let r' := Part000.is_high d b in
  (fst (fst r) = true <->
     state (snd (fst r)) = High \/ state (snd (fst r)) = PossibleLow) /\
  (fst (fst r) = false <->
     state (snd (fst r)) = Low \/ state (snd (fst r)) = PossibleHigh) /\
  (fst (fst r') = true <->
     state (snd (fst r')) = High \/ state (snd (fst r')) = PossibleLow) /\
  (fst (fst r') = false <->
     state (snd (fst r')) = Low \/ state (snd (fst r')) = PossibleHigh).
Proof.
  intros r r'. subst r r'.
  rewrite (analog_poll_output d b), (digital_poll_output d b).
  repeat split; try apply is_on_true; try apply is_on_false.
Qed.

(** C6, as the code has it.  Gate not eligible, [last_time = 4294967200],
    interval 250, the clock wrapped.  At [now = 155] the elapsed time the
    code computes is [(4294967295 - 4294967200) + 155 = 250], and the
    overflow branch compares it with [>]: [can_change] returns [false].  It
    first returns [true] at [now = 156].  The branch without overflow
    compares with [>=] and returns [true] at an elapsed time of exactly
    250. *)
Theorem wrapped_check_misses_the_boundary :
  let c := ChangeAble.mk false 4294967200 in
  (MAX_UNSIGNED_LONG - ChangeAble.last_time c) + 155 = 250 /\
  fst (can_change c 250 (board_of [155] [])) = (false, c) /\
  fst (can_change c 250 (board_of [156] [])) =
    (true, ChangeAble.mk true 4294967200) /\
  fst (fst (can_change (ChangeAble.mk false 1000) 250
              (board_of [1250] []))) = true.
Proof. vm_compute. repeat split; reflexivity. Qed.

(** C7, as the code has it.  In [PossibleLow] with a sample below the
    threshold, 1 ms after the gate's [last_time], the code moves to [Low]
    and returns [false]: the cooldown the claim requires for that transition
    is not waited for, because the gate's [can_change] field is [true]. *)
Theorem possible_low_commits_before_interval :
  let d := mkDebouncer PossibleLow (ChangeAble.mk true 1000) 17 in
  fst (DebounceIno.is_high d (board_of [1001] [0])) =
    (false, mkDebouncer Low (ChangeAble.mk true 1001) 17) /\
  1001 - 1000 < CHANGE_STATE_INTERVAL.
Proof. vm_compute. repeat split; reflexivity. Qed.

(** The half of C7 the code keeps: from [PossibleLow], one sample above the
    threshold gives [High] and [true]; [can_change] is not consulted, the
    one clock reading of the poll is the one of the reset. *)
Lemma possible_low_cancels_at_once (d : Debouncer) (b : Board) :
  state d = PossibleLow ->
  analog_in b (pin_reads b) (pin d) > 155 ->
  let r := DebounceIno.is_high d b in
  fst (fst r) = true /\ state (snd (fst r)) = High /\
  clock_reads (snd r) = S (clock_reads b).
Proof.
  intros Hs Hh.
  destruct (analog_is_high_switch d b) as (b1 & out & _ & Hn & _ & Ho & E).
  cbv zeta in *. rewrite E. clear E. cbn [fst snd]. rewrite <- Hn.
  apply (proj2 (proj1 (threshold_spec _))) in Hh. rewrite Hh in *.
  clear Hh Hn.
  destruct d as [s [f t] p]. cbn [state] in Hs. subst s. revert Ho.
  unfold_switch. intros Ho. injection Ho as <-. repeat split.
Qed.

(** C9.  For each of the four states, both values of the gate's
    [can_change] field, every [last_time] and every board (so both
    readings): the switch returns from inside, with a [bool] and a next
    debouncer, whatever the level it is given; and neither sketch's
    [is_high] runs the [printf] of the fallback after the switch. *)
Theorem is_high_total
  (s : DebounceState) (eligible : bool) (last p : Z) (b : Board) :
  let d := mkDebouncer s (ChangeAble.mk eligible last) p in
  (forall current_input : Z,
      exists (out : bool) (d' : Debouncer) (b' : Board),
        state_switch current_input d b = ((Some out, d'), b')) /\
  (exists (out : bool) (d' : Debouncer) (b' : Board),
      DebounceIno.is_high d b = ((out, d'), b') /\ stdout b' = stdout b) /\
  (exists (out : bool) (d' : Debouncer) (b' : Board),
      Part000.is_high d b = ((out, d'), b') /\ stdout b' = stdout b).
Proof.
  intros d. split; [| split].
  - intros ci. destruct (switch_returns ci d b) as [out H].
    destruct (state_switch ci d b) as [[o d'] b']. cbn [fst] in H. subst o.
    eauto.
  - pose proof (analog_poll_stdout d b) as H.
    destruct (DebounceIno.is_high d b) as [[out d'] b']. eauto.
  - pose proof (digital_poll_stdout d b) as H.
    destruct (Part000.is_high d b) as [[out d'] b']. eauto.
Qed.

(** C10, as the code has it.  The level handed to the switch is [HIGH]
    exactly when the sample is above the literal 155; the declared constant
    [HIGH_THREASHOLD] (500) is not what the sample is compared with.  A
    sample of 300 is not above [HIGH_THREASHOLD], yet it is conditioned to
    [HIGH] and takes a debouncer in [Low] to [PossibleHigh]. *)
Theorem threshold_is_not_the_declared_constant :
  (300 >? HIGH_THREASHOLD) = false /\
  DebounceIno.threshold 300 = HIGH /\
  state (snd (fst (DebounceIno.is_high
                     (mkDebouncer Low (ChangeAble.mk true 0) 17)
                     (board_of [10] [300])))) = PossibleHigh.
Proof. vm_compute. repeat split; reflexivity. Qed.

(** * Further properties of the debounce sketches *)

(** ** One poll *)

(** The pair a poll returns depends on the board through the clock only. *)
Lemma switch_clock_only (current_input : Z) (d : Debouncer) (b b' : Board) :
  clock b = clock b' -> clock_reads b = clock_reads b' ->
  fst (state_switch current_input d b) =
  fst (state_switch current_input d b').
Proof.
  destruct b as [c n a g r w o v], b' as [c' n' a' g' r' w' o' v'].
  cbn [clock clock_reads]. intros <- <-. destruct d as [s [f t] p].
  destruct s; unfold_switch; cbn [clock clock_reads];
    repeat match goal with
           | |- context [if ?c then _ else _] =>
               lazymatch c with
               | context [if _ then _ else _] => fail
               | _ => destruct c; cbv beta iota; cbn [clock clock_reads]
               end
           end;
    reflexivity.
Qed.

Lemma switch_clock_reads (current_input : Z) (d : Debouncer) (b : Board) :
  (clock_reads (snd (state_switch current_input d b))
   <= 2 + clock_reads b)%nat /\
  pin_writes (snd (state_switch current_input d b)) = pin_writes b /\
  serial (snd (state_switch current_input d b)) = serial b.
Proof.
  destruct d as [s [f t] p].
  destruct s; unfold_switch; split_ifs; cbn; repeat split; lia.
Qed.

(** Everything a poll with an eligible gate does, read off the state and
    the sample. *)
Lemma eligible_poll (d : Debouncer) (b : Board) :
  ChangeAble.can_change (change d) = true ->
  let r := DebounceIno.is_high d b in
  let high := analog_in b (pin_reads b) (pin d) >? 155 in
  state (snd (fst r)) =
    match state d with
    | Low => if high then PossibleHigh else Low
    | PossibleHigh => if high then High else Low
    | High => if high then High else PossibleLow
    | PossibleLow => if high then High else Low
    end /\
  fst (fst r) = is_on (state (snd (fst r))) /\
  ChangeAble.can_change (change (snd (fst r))) = true /\
  pin (snd (fst r)) = pin d /\
  analog_in (snd r) = analog_in b /\ pin_reads (snd r) = S (pin_reads b).
Proof.
  intros He r high. subst r high.
  pose proof (eligible_poll_ignores_clock d b He) as H1.
  pose proof (analog_poll_output d b) as H2.
  pose proof (analog_poll_keeps_eligible d b He) as H3.
  pose proof (analog_poll_pins d b) as (H4 & H5 & H6).
  auto 10.
Qed.

(** From [High], a sample at or below the threshold enters [PossibleLow]
    with a gate that is eligible at once. *)
Lemma high_low_poll (d : Debouncer) (b : Board) :
  state d = High ->
  analog_in b (pin_reads b) (pin d) <= 155 ->
  let r := DebounceIno.is_high d b in
  fst (fst r) = true /\ state (snd (fst r)) = PossibleLow /\
  ChangeAble.can_change (change (snd (fst r))) = true.
Proof.
  intros Hs Hh.
  destruct (analog_is_high_switch d b) as (b1 & out & _ & _ & _ & Ho & E).
  cbv zeta in *. rewrite E. clear E. cbn [fst snd].
  apply (proj2 (proj2 (threshold_spec _))) in Hh. rewrite Hh in *. clear Hh.
  destruct d as [s [f t] p]. cbn [state] in Hs. subst s. revert Ho.
  unfold_switch. intros Ho. injection Ho as <-. repeat split.
Qed.

(** X4.  From a reachable debouncer, the state a poll leaves and the
    [bool] it returns are given by the state before and by whether the
    sample is above 155; the clock has no part in either, and a provisional
    state is always left by the next poll. *)
Theorem reachable_poll_table (d : Debouncer) (b : Board) :
  reachable d ->
  let r := DebounceIno.is_high d b in
  let high := analog_in b (pin_reads b) (pin d) >? 155 in
  state (snd (fst r)) =
    match state d with
    | Low => if high then PossibleHigh else Low
    | PossibleHigh => if high then High else Low
    | High => if high then High else PossibleLow
    | PossibleLow => if high then High else Low
    end /\
  fst (fst r) =
    match state d with
    | Low => false
    | PossibleHigh => high
    | High => true
    | PossibleLow => high
    end.
Proof.
  intros Hr. apply reachable_eligible in Hr.
  destruct (eligible_poll d b Hr) as (H1 & H2 & _).
  cbv zeta in *. rewrite H2, H1.
  destruct (state d), (analog_in b (pin_reads b) (pin d) >? 155);
    cbn [is_on]; split; reflexivity.
Qed.

Lemma reachable_poll_table_witness :
  let d0 := fst (new_debouncer 17 (board_of [1000] [])) in
  let d1 := snd (fst (DebounceIno.is_high d0 (board_of [1001] [600]))) in
  let r := DebounceIno.is_high d1 (board_of [1002] [600]) in
  reachable d1 /\ state (snd (fst r)) = High /\ fst (fst r) = true.
Proof.
  intros d0 d1 r.
  assert (H : reachable d1) by (apply reach_analog, reach_new).
  split; [exact H |].
  exact (reachable_poll_table d1 (board_of [1002] [600]) H).
Defined.

(** ** What a poll does to the board *)

Lemma analog_is_high_board (d : Debouncer) (b : Board) :
  let sample := analog_in b (pin_reads b) (pin d) in
  let b1 := mkBoard (clock b) (clock_reads b) (analog_in b) (digital_in b)
              (S (pin_reads b))
              (PrintStr "," :: PrintInt sample :: serial b)
              (stdout b) (pin_writes b) in
  let r := state_switch (DebounceIno.threshold sample) d b1 in
  exists out,
    fst (fst r) = Some out /\
    DebounceIno.is_high d b = ((out, snd (fst r)), snd r).
Proof.
  cbv zeta. unfold DebounceIno.is_high, bind, analogRead, Serial_write.
  cbv beta iota. cbn [clock clock_reads analog_in digital_in pin_reads
                      serial stdout pin_writes].
  match goal with
  | |- context [state_switch ?ci d ?b1] =>
      destruct (switch_returns ci d b1) as [out H]; exists out;
      rewrite H; split; [reflexivity |];
      destruct (state_switch ci d b1) as [[o d'] b2]
  end.
  cbn [fst snd] in *. subst o. reflexivity.
Qed.

Lemma digital_is_high_board (d : Debouncer) (b : Board) :
  let level := if digital_in b (pin_reads b) (pin d) then HIGH else LOW in
  let b1 := mkBoard (clock b) (clock_reads b) (analog_in b) (digital_in b)
              (S (pin_reads b)) (serial b) (stdout b) (pin_writes b) in
  let r := state_switch level d b1 in
  exists out,
    fst (fst r) = Some out /\
    Part000.is_high d b = ((out, snd (fst r)), snd r).
Proof.
  cbv zeta. unfold Part000.is_high, bind, digitalRead. cbv beta iota.
  match goal with
  | |- context [state_switch ?ci d ?b1] =>
      destruct (switch_returns ci d b1) as [out H]; exists out;
      rewrite H; split; [reflexivity |];
      destruct (state_switch ci d b1) as [[o d'] b2]
  end.
  cbn [fst snd] in *. subst o. reflexivity.
Qed.

(** X5.  What one poll of [debounce.ino] does besides the state machine:
    it reads the debouncer's pin once, prints the raw sample and a comma on
    the serial line, writes no pin and nothing on standard output, reads the
    clock at most twice, and leaves the [pin] field as it was. *)
Theorem analog_poll_frame (d : Debouncer) (b : Board) :
  let r := DebounceIno.is_high d b in
  pin_reads (snd r) = S (pin_reads b) /\
  serial (snd r) =
    PrintStr "," :: PrintInt (analog_in b (pin_reads b) (pin d)) :: serial b /\
  pin_writes (snd r) = pin_writes b /\
  stdout (snd r) = stdout b /\
  (clock_reads b <= clock_reads (snd r) <= 2 + clock_reads b)%nat /\
  pin (snd (fst r)) = pin d.
Proof.
  destruct (analog_is_high_board d b) as (out & _ & E). cbv zeta in *.
  rewrite E. cbn [fst snd].
  match goal with
  | |- context [state_switch ?ci d ?b1] =>
      pose proof (switch_pins ci d b1) as (P1 & _ & P3);
      pose proof (switch_clock_reads ci d b1) as (C1 & C2 & C3);
      pose proof (switch_board ci d b1) as (_ & B2 & B3)
  end.
  cbn [clock_reads pin_reads serial stdout pin_writes] in *.
  repeat split; assumption.
Qed.

(** X6.  Idle polls.  In [Low] with a sample at or below the threshold,
    and in [High] with a sample above it, a poll returns the debouncer it
    was given, gate included, and does not read the clock.  This holds for
    any gate. *)
Theorem idle_poll_keeps_debouncer (d : Debouncer) (b : Board) :
  (state d = Low /\ analog_in b (pin_reads b) (pin d) <= 155) \/
  (state d = High /\ analog_in b (pin_reads b) (pin d) > 155) ->
  let r := DebounceIno.is_high d b in
  snd (fst r) = d /\ fst (fst r) = is_on (state d) /\
  clock_reads (snd r) = clock_reads b.
Proof.
  intros H.
  destruct (analog_is_high_board d b) as (out & Ho & E). cbv zeta in *.
  rewrite E. clear E. cbn [fst snd].
  destruct H as [[Hs Hl] | [Hs Hh]].
  - apply (proj2 (proj2 (threshold_spec _))) in Hl. rewrite Hl in *.
    destruct d as [s [f t] p]. cbn [state] in Hs. subst s. revert Ho.
    unfold_switch. intros Ho. injection Ho as <-. repeat split.
  - apply (proj2 (proj1 (threshold_spec _))) in Hh. rewrite Hh in *.
    destruct d as [s [f t] p]. cbn [state] in Hs. subst s. revert Ho.
    unfold_switch. intros Ho. injection Ho as <-. repeat split.
Qed.

Lemma idle_poll_keeps_debouncer_witness :
  let d := mkDebouncer High (ChangeAble.mk false 77) 17 in
  let b := board_of [1000] [900] in
  snd (fst (DebounceIno.is_high d b)) = d /\
  fst (fst (DebounceIno.is_high d b)) = true /\
  clock_reads (snd (DebounceIno.is_high d b)) = 0%nat.
Proof.
  intros d b.
  refine (idle_poll_keeps_debouncer d b _).
  right. split; [reflexivity | vm_compute; reflexivity].
Defined.

(** X7.  The two sketches run the same state machine: when the level
    [digitalRead] reports is the sample of [analogRead] compared with 155,
    [is_high] of the digital sketch and [is_high] of [debounce.ino] return
    the same [bool] and leave the same debouncer. *)
Theorem sketches_agree (d : Debouncer) (b : Board) :
  digital_in b (pin_reads b) (pin d) =
    (analog_in b (pin_reads b) (pin d) >? 155) ->
  fst (Part000.is_high d b) = fst (DebounceIno.is_high d b).
Proof.
  intros H.
  destruct (analog_is_high_board d b) as (out & Ho & E).
  destruct (digital_is_high_board d b) as (out' & Ho' & E').
  cbv zeta in *. rewrite E, E'. clear E E'. cbn [fst].
  unfold DebounceIno.threshold in *. rewrite H in *.
  match type of Ho with
  | fst (fst (state_switch ?ci d ?b1)) = _ =>
      match type of Ho' with
      | fst (fst (state_switch ci d ?b2)) = _ =>
          pose proof (switch_clock_only ci d b2 b1 eq_refl eq_refl) as Hc
      end
  end.
  rewrite Hc in *. rewrite Ho in Ho'. injection Ho' as <-. reflexivity.
Qed.

Lemma sketches_agree_witness :
  let d := mkDebouncer PossibleHigh (ChangeAble.mk true 1000) 17 in
  let b := board_of [1001] [600] in
  fst (Part000.is_high d b) =
    (true, mkDebouncer High (ChangeAble.mk true 1001) 17).
Proof.
  intros d b.
  rewrite (sketches_agree d b); [reflexivity | vm_compute; reflexivity].
Defined.

(** ** [loop] *)

Lemma repeat_loop_step {A G : Type} (loop : G -> M (A * G)) (n : nat)
  (g : G) (b : Board) :
  repeat_loop loop (S n) g b =
  (let r := loop g b in
   let rest := repeat_loop loop n (snd (fst r)) (snd r) in
   ((fst (fst r) :: fst (fst rest), snd (fst rest)), snd rest)).
Proof.
  cbn [repeat_loop]. unfold bind, ret.
  destruct (loop g b) as [[o g1] b1]. cbn [fst snd].
  destruct (repeat_loop loop n g1 b1) as [[os g2] b2]. reflexivity.
Qed.

Lemma analog_poll_pin_writes (d : Debouncer) (b : Board) :
  pin_writes (snd (DebounceIno.is_high d b)) = pin_writes b.
Proof.
  destruct (analog_is_high_board d b) as (out & _ & E). cbv zeta in *.
  rewrite E. cbn [snd].
  match goal with
  | |- context [state_switch ?ci d ?b1] =>
      pose proof (switch_clock_reads ci d b1) as (_ & C2 & _)
  end.
  exact C2.
Qed.

Lemma analog_loop_low (g : Globals) (b : Board) :
  state (bend_pin_debouncer g) = Low ->
  fst (DebounceIno.loop g b) = (false, g) /\
  pin_writes (snd (DebounceIno.loop g b)) = (13, LOW) :: pin_writes b.
Proof.
  intros HL.
  pose proof (analog_poll_pin_writes (bend_pin_debouncer g) b) as Hw.
  destruct (analog_is_high_switch (bend_pin_debouncer g) b)
    as (b1 & out & _ & _ & _ & Ho & E).
  cbv zeta in Ho, Hw. rewrite (switch_Low_false _ _ _ HL) in Ho.
  injection Ho as <-.
  unfold DebounceIno.loop, bind. rewrite E in *. cbn [fst snd] in *.
  unfold Serial_write, digitalWrite. cbn. rewrite Hw. split; reflexivity.
Qed.

(** X8.  [loop] of [debounce.ino] never reports a bend.  The global
    debouncer goes to [is_high] by value, so it is the same after every
    iteration; starting from the globals as initialised, any number of
    iterations, on any board (any samples, any clock), yields [false] every
    time, writes [LOW] to pin 13 every time, and leaves the globals as they
    were. *)
Theorem analog_loop_never_bends (n : nat) (b : Board) :
  let g := fst (DebounceIno.globals b) in
  let r := repeat_loop DebounceIno.loop n g (snd (DebounceIno.globals b)) in
  fst (fst r) = repeat false n /\
  snd (fst r) = g /\
  pin_writes (snd r) = repeat (13, LOW) n ++ pin_writes b.
Proof.
  cbv zeta.
  assert (HL : state (bend_pin_debouncer (fst (DebounceIno.globals b))) = Low)
    by reflexivity.
  assert (Hw : pin_writes (snd (DebounceIno.globals b)) = pin_writes b)
    by reflexivity.
  rewrite <- Hw. clear Hw.
  generalize dependent (snd (DebounceIno.globals b)).
  generalize dependent (fst (DebounceIno.globals b)).
  intros g HL. clear b.
  induction n as [| n IH]; intros b.
  - repeat split.
  - rewrite repeat_loop_step. cbv zeta. cbn [fst snd].
    destruct (analog_loop_low g b HL) as [E W]. rewrite E. cbn [fst snd].
    destruct (IH (snd (DebounceIno.loop g b))) as (I1 & I2 & I3).
    rewrite I1, I2, I3, W. repeat split.
    change ((13, LOW) :: pin_writes b) with ([(13, LOW)] ++ pin_writes b).
    rewrite app_assoc. f_equal.
    change (repeat (13, LOW) (S n)) with ([(13, LOW)] ++ repeat (13, LOW) n).
    symmetry. apply repeat_cons.
Qed.

Lemma digital_loop_low (g : Globals) (b : Board) :
  state (bend_pin_debouncer g) = Low ->
  state (unbend_pin_debouncer g) = Low ->
  fst (Part000.loop g b) = (false, false, g).
Proof.
  intros H1 H2. unfold Part000.loop, bind.
  destruct (digital_is_high_switch (bend_pin_debouncer g) b)
    as (b1 & out & _ & _ & _ & Ho & E).
  cbv zeta in Ho. rewrite (switch_Low_false _ _ _ H1) in Ho.
  injection Ho as <-. rewrite E. cbn [fst snd].
  match goal with
  | |- context [Part000.is_high ?d ?b2] =>
      destruct (digital_is_high_switch d b2)
        as (b3 & out & _ & _ & _ & Ho & E')
  end.
  cbv zeta in Ho. rewrite (switch_Low_false _ _ _ H2) in Ho.
  injection Ho as <-. rewrite E'. reflexivity.
Qed.

(** X9.  [loop] of the digital sketch never reports a bend or an extend:
    both global debouncers go to [is_high] by value, so from the globals as
    initialised every iteration yields [(false, false)] and leaves the
    globals as they were, on any board. *)
Theorem digital_loop_never_moves (n : nat) (b : Board) :
  let g := fst (Part000.globals b) in
  let r := repeat_loop Part000.loop n g (snd (Part000.globals b)) in
  fst (fst r) = repeat (false, false) n /\ snd (fst r) = g.
Proof.
  cbv zeta.
  assert (H1 : state (bend_pin_debouncer (fst (Part000.globals b))) = Low)
    by reflexivity.
  assert (H2 : state (unbend_pin_debouncer (fst (Part000.globals b))) = Low)
    by reflexivity.
  generalize dependent (snd (Part000.globals b)).
  generalize dependent (fst (Part000.globals b)).
  intros g H1 H2. clear b.
  induction n as [| n IH]; intros b.
  - repeat split.
  - rewrite repeat_loop_step. cbv zeta. cbn [fst snd].
    rewrite (digital_loop_low g b H1 H2). cbn [fst snd].
    destruct (IH (snd (Part000.loop g b))) as (I1 & I2).
    rewrite I1, I2. repeat split.
Qed.

Lemma analog_loop_pin_reads (g : Globals) (b : Board) :
  pin_reads (snd (DebounceIno.loop g b)) = S (pin_reads b).
Proof.
  pose proof (analog_poll_pins (bend_pin_debouncer g) b) as (_ & _ & Hr).
  cbv zeta in Hr. unfold DebounceIno.loop, bind.
  destruct (DebounceIno.is_high (bend_pin_debouncer g) b) as [[o d1] b1].
  cbn [fst snd] in *. unfold Serial_write, digitalWrite, ret.
  destruct o; cbn [snd pin_reads]; exact Hr.
Qed.

(** Any number of iterations of [loop] from a global debouncer in [Low]. *)
Lemma analog_loop_run_low (n : nat) : forall (g : Globals) (b : Board),
  state (bend_pin_debouncer g) = Low ->
  let r := repeat_loop DebounceIno.loop n g b in
  fst (fst r) = repeat false n /\ snd (fst r) = g /\
  pin_reads (snd r) = (pin_reads b + n)%nat.
Proof.
  induction n as [| n IH]; intros g b HL.
  - cbn [repeat_loop ret fst snd repeat]. repeat split. lia.
  - rewrite repeat_loop_step. cbv zeta. cbn [fst snd].
    destruct (analog_loop_low g b HL) as [E _].
    pose proof (analog_loop_pin_reads g b) as P.
    rewrite E. cbn [fst snd].
    destruct (IH g (snd (DebounceIno.loop g b)) HL) as (I1 & I2 & I3).
    rewrite I1, I2, I3, P. repeat split. lia.
Qed.

(** C1.  The poll sequence of the sketch is [loop] calling [is_high] on the
    global debouncer, once per iteration, and [is_high] receives it by
    value.  With that debouncer in [Low]: one or more polls whose samples
    are above the threshold followed by a poll whose sample is not (each
    poll consumes one pin reading) return [false] on every poll, and the
    debouncer is in [Low] afterwards.  No reading of the clock enters, so
    this holds in particular when the pulse is shorter than
    [CHANGE_STATE_INTERVAL]: such a pulse never produces [true]. *)
Theorem short_pulse_outputs_false (k : nat) (g : Globals) (b : Board) :
  state (bend_pin_debouncer g) = Low ->
  (forall i, (i < S k)%nat ->
             analog_in b (pin_reads b + i)%nat
               (pin (bend_pin_debouncer g)) > 155) ->
  analog_in b (pin_reads b + S k)%nat (pin (bend_pin_debouncer g)) <= 155 ->
  let r := repeat_loop DebounceIno.loop (S (S k)) g b in
  fst (fst r) = repeat false (S (S k)) /\
  state (bend_pin_debouncer (snd (fst r))) = Low /\
  pin_reads (snd r) = (pin_reads b + S (S k))%nat.
Proof.
  intros HL _ _.
  destruct (analog_loop_run_low (S (S k)) g b HL) as (H1 & H2 & H3).
  cbv zeta in *. rewrite H2. auto.
Qed.

Lemma short_pulse_outputs_false_witness :
  let b0 := board_of [1000; 1000; 1001; 1002; 1003] [600; 600; 0] in
  let g := fst (DebounceIno.globals b0) in
  let r := repeat_loop DebounceIno.loop 3 g (snd (DebounceIno.globals b0)) in
  fst (fst r) = [false; false; false] /\
  state (bend_pin_debouncer (snd (fst r))) = Low.
Proof.
  intros b0 g r.
  assert (HL : state (bend_pin_debouncer g) = Low) by reflexivity.
  destruct (short_pulse_outputs_false 1 g (snd (DebounceIno.globals b0)) HL)
    as (H1 & H2 & _).
  - intros i Hi. destruct i as [| [| i]]; [vm_compute; reflexivity .. | lia].
  - vm_compute. discriminate.
  - split; [exact H1 | exact H2].
Defined.

(** C8, as the code has it.  A debouncer in [PossibleHigh] whose gate is
    not eligible, [last_time = MAX_UNSIGNED_LONG - 250], polled twice by
    [loop] with samples above the threshold.  On the first poll the clock
    reads [MAX_UNSIGNED_LONG]: the check succeeds (elapsed 250) and
    [can_change] sets [can_change = true], but in its own by-value copy;
    the debouncer [loop] holds keeps state and gate.  On the second poll
    the clock reads 0: the check does not return by the fast path, it reads
    the clock again (third reading of the run) and fails, and the poll
    returns [false].  The claim wants every check after a first success to
    return [true] by the fast path. *)
Theorem successful_check_is_not_remembered :
  let c := ChangeAble.mk false (MAX_UNSIGNED_LONG - CHANGE_STATE_INTERVAL) in
  let d := mkDebouncer PossibleHigh c 17 in
  let g := mkGlobals d d in
  let b := board_of [4294967295; 4294967295; 0] [600; 600] in
  let r := repeat_loop DebounceIno.loop 2 g b in
  fst (can_change c CHANGE_STATE_INTERVAL b) =
    (true, ChangeAble.mk true (ChangeAble.last_time c)) /\
  fst (fst r) = [true; false] /\
  snd (fst r) = g /\
  clock_reads (snd r) = 3%nat.
Proof. vm_compute. repeat split; reflexivity. Qed.

(** ** [can_change] on a gate that is not eligible *)

(** X10.  On a gate whose [can_change] field is [false] and whose
    [last_time] is an [unsigned long], [can_change] reads the clock exactly
    once and returns: [now - last_time >= interval] when the clock reads at
    or after [last_time], and [(MAX_UNSIGNED_LONG - last_time) + now >
    interval] (strict) when it reads before.  No step of that arithmetic
    wraps around.  Its own copy of the gate keeps [last_time] and gets the
    returned [bool] as its [can_change] field. *)
Theorem can_change_not_eligible
  (c : ChangeAble.t) (interval : Z) (b : Board) :
  ChangeAble.can_change c = false ->
  0 <= ChangeAble.last_time c <= MAX_UNSIGNED_LONG ->
  let now := to_ulong (clock b (clock_reads b)) in
  let last := ChangeAble.last_time c in
  let r := can_change c interval b in
  fst (fst r) =
    (if now <? last then MAX_UNSIGNED_LONG - last + now >? interval
     else now - last >=? interval) /\
  snd (fst r) = ChangeAble.mk (fst (fst r)) last /\
  clock_reads (snd r) = S (clock_reads b).
Proof.
  intros Hc Hl now last r.
  destruct (can_change_slow c interval b Hc Hl) as [H1 H2].
  cbv zeta in H1. subst r now last. rewrite <- H1. repeat split; [| exact H2].
  destruct c as [f t]. cbn [ChangeAble.can_change] in Hc. subst f.
  cbv beta iota zeta delta [can_change millis bind ret
                            ChangeAble.can_change ChangeAble.last_time].
  cbv beta iota. split_ifs; reflexivity.
Qed.

Lemma can_change_not_eligible_witness :
  let c := ChangeAble.mk false 1000 in
  fst (fst (can_change c 250 (board_of [1249] []))) = false.
Proof.
  intros c.
  refine (proj1 (can_change_not_eligible c 250 (board_of [1249] [])
                   eq_refl _)).
  vm_compute. split; discriminate.
Defined.

(** X11.  The check is not monotone across the wrap of the clock.  For a
    gate that is not eligible with [last_time = MAX_UNSIGNED_LONG -
    interval], [can_change] returns [true] when the clock reads
    [MAX_UNSIGNED_LONG] and [false] one millisecond later, when it reads
    0. *)
Theorem can_change_lost_at_wrap (interval : Z) (b b' : Board) :
  0 <= interval <= MAX_UNSIGNED_LONG ->
  clock b (clock_reads b) = MAX_UNSIGNED_LONG ->
  clock b' (clock_reads b') = 0 ->
  let c := ChangeAble.mk false (MAX_UNSIGNED_LONG - interval) in
  fst (fst (can_change c interval b)) = true /\
  fst (fst (can_change c interval b')) = false.
Proof.
  intros Hi Hb Hb' c.
  assert (Hl : 0 <= ChangeAble.last_time c <= MAX_UNSIGNED_LONG)
    by (subst c; cbn [ChangeAble.last_time]; lia).
  destruct (can_change_slow c interval b eq_refl Hl) as [H1 _].
  destruct (can_change_slow c interval b' eq_refl Hl) as [H2 _].
  cbv zeta in H1, H2. rewrite H1, H2, Hb, Hb'. clear H1 H2.
  subst c. cbn [ChangeAble.last_time].
  rewrite (to_ulong_small MAX_UNSIGNED_LONG) by (unfold MAX_UNSIGNED_LONG; lia).
  rewrite (to_ulong_small 0) by (unfold MAX_UNSIGNED_LONG; lia).
  unfold MAX_UNSIGNED_LONG in *. split.
  - destruct (4294967295 <? 4294967295 - interval) eqn:E.
    + apply Z.ltb_lt in E. lia.
    + apply Z.geb_le. lia.
  - destruct (0 <? 4294967295 - interval) eqn:E.
    + rewrite Z.gtb_ltb. apply Z.ltb_ge. lia.
    + apply Z.ltb_ge in E. rewrite Z.geb_leb. apply Z.leb_gt. lia.
Qed.

Lemma can_change_lost_at_wrap_witness :
  let c := ChangeAble.mk false (MAX_UNSIGNED_LONG - 250) in
  fst (fst (can_change c 250 (board_of [4294967295] []))) = true /\
  fst (fst (can_change c 250 (board_of [0] []))) = false.
Proof.
  intros c.
  refine (can_change_lost_at_wrap 250 (board_of [4294967295] [])
            (board_of [0] []) _ eq_refl eq_refl).
  vm_compute. split; discriminate.
Defined.

(** * The servo sketch *)

Import ServoSketch.

(** ** Fixed-width integers *)

Lemma to_uint32_range (z : Z) : 0 <= to_uint32 z < 2 ^ 32.
Proof. unfold to_uint32. apply Z.mod_pos_bound. lia. Qed.

Lemma to_uint32_small (z : Z) : 0 <= z < 2 ^ 32 -> to_uint32 z = z.
Proof. unfold to_uint32. apply Z.mod_small. Qed.

Lemma to_uint16_small (z : Z) : 0 <= z < 2 ^ 16 -> to_uint16 z = z.
Proof. unfold to_uint16. apply Z.mod_small. Qed.

Lemma to_uint8_small (z : Z) : 0 <= z < 2 ^ 8 -> to_uint8 z = z.
Proof. unfold to_uint8. apply Z.mod_small. Qed.

Lemma to_int16_small (z : Z) : - 2 ^ 15 <= z < 2 ^ 15 -> to_int16 z = z.
Proof.
  intros H. unfold to_int16. rewrite Z.mod_small; lia.
Qed.

Lemma high_bits_clear (n a i : Z) :
  0 <= n -> 0 <= a < 2 ^ n -> n <= i -> Z.testbit a i = false.
Proof.
  intros Hn Ha Hi. rewrite <- (Z.mod_small a (2 ^ n)) by exact Ha.
  apply Z.mod_pow2_bits_high. lia.
Qed.

Lemma bits_give_range (n a : Z) :
  0 <= n -> 0 <= a -> (forall i, n <= i -> Z.testbit a i = false) ->
  0 <= a < 2 ^ n.
Proof.
  intros Hn Ha H. split; [exact Ha |].
  destruct (Z.eq_dec a 0) as [-> | Hz]; [apply Z.pow_pos_nonneg; lia |].
  apply Z.log2_lt_pow2; [lia |].
  destruct (Z_lt_le_dec (Z.log2 a) n) as [Hlt | Hle]; [exact Hlt |].
  specialize (H (Z.log2 a) Hle). rewrite Z.bit_log2 in H by lia.
  discriminate.
Qed.

Lemma lxor_range (n a b : Z) :
  0 <= n -> 0 <= a < 2 ^ n -> 0 <= b < 2 ^ n -> 0 <= Z.lxor a b < 2 ^ n.
Proof.
  intros Hn Ha Hb. apply bits_give_range; [exact Hn | |].
  - apply Z.lxor_nonneg. lia.
  - intros i Hi. rewrite Z.lxor_spec.
    rewrite (high_bits_clear n a i), (high_bits_clear n b i) by assumption.
    reflexivity.
Qed.

Lemma shiftr_range (n a k : Z) :
  0 <= k -> 0 <= a < 2 ^ n -> 0 <= Z.shiftr a k < 2 ^ n.
Proof.
  intros Hk Ha. rewrite Z.shiftr_div_pow2 by exact Hk.
  assert (0 < 2 ^ k) by (apply Z.pow_pos_nonneg; lia).
  split.
  - apply Z.div_pos; lia.
  - apply Z.le_lt_trans with a; [| lia].
    apply Z.div_le_upper_bound; [lia |]. nia.
Qed.

(** ** [RNG] *)

Lemma next_range (g : RNG.t) : 0 <= fst (RNG.next g) < 2 ^ 32.
Proof.
  unfold RNG.next. cbv zeta. cbn [fst].
  apply lxor_range; [lia | apply to_uint32_range |].
  apply shiftr_range; [lia | apply to_uint32_range].
Qed.

(** X12.  [next_bounded(bound)] with a positive bound returns a number in
    [0, bound), the remainder of what [next()] returns, and leaves the
    generator [next()] leaves, whose [value] is a 32-bit number and is the
    number [next()] returned. *)
Theorem next_bounded_in_range (g : RNG.t) (bound : Z) :
  0 < bound ->
  let r := RNG.next_bounded g bound in
  0 <= fst r < bound /\
  fst r = fst (RNG.next g) mod bound /\
  snd r = snd (RNG.next g) /\
  RNG.value (snd r) = fst (RNG.next g) /\
  0 <= RNG.value (snd r) < 2 ^ 32.
Proof.
  intros Hb. pose proof (next_range g) as Hr.
  unfold RNG.next_bounded. cbv zeta.
  assert (Hv : RNG.value (snd (RNG.next g)) = fst (RNG.next g))
    by reflexivity.
  destruct (RNG.next g) as [v g']. cbn [fst snd] in *.
  repeat split; try (apply Z.mod_pos_bound; exact Hb); try exact Hv;
    rewrite Hv; lia.
Qed.

Lemma next_bounded_in_range_witness :
  0 <= fst (RNG.next_bounded (RNG.new 42) 1024) < 1024.
Proof.
  refine (proj1 (next_bounded_in_range (RNG.new 42) 1024 _)). lia.
Defined.

(** ** [from_1023_to_90] *)

(** X13.  For a 16-bit [number], [from_1023_to_90] is [number * 90 / 1023]
    exactly (neither cast loses anything); it is monotone; it stays within
    0..90 for inputs up to 1023, with 0 at 0 and 90 at 1023; and it exceeds
    90 exactly for inputs above 1034. *)
Theorem from_1023_to_90_scale (n m : Z) :
  0 <= n <= m -> m < 2 ^ 16 ->
  from_1023_to_90 n = n * 90 / 1023 /\
  from_1023_to_90 n <= from_1023_to_90 m /\
  (n <= 1023 -> 0 <= from_1023_to_90 n <= 90) /\
  (from_1023_to_90 n <= 90 <-> n <= 1034) /\
  from_1023_to_90 0 = 0 /\ from_1023_to_90 1023 = 90.
Proof.
  intros Hnm Hm.
  assert (E : forall k, 0 <= k < 2 ^ 16 ->
                        from_1023_to_90 k = k * 90 / 1023).
  { intros k Hk. unfold from_1023_to_90.
    rewrite (to_uint32_small k) by lia.
    rewrite (to_uint32_small (k * 90)) by lia.
    apply to_uint16_small. Z.div_mod_to_equations. lia. }
  rewrite (E n), (E m) by lia.
  repeat split; try (vm_compute; reflexivity);
    try (intros; Z.div_mod_to_equations; lia);
    Z.div_mod_to_equations; lia.
Qed.

Lemma from_1023_to_90_scale_witness :
  from_1023_to_90 512 = 512 * 90 / 1023.
Proof.
  refine (proj1 (from_1023_to_90_scale 512 700 _ _)); lia.
Defined.

(** ** [EMGSimulator] *)

Lemma noise_range (g : RNG.t) :
  0 <= to_uint16 (fst (RNG.next_bounded g 1024)) <= 1023.
Proof.
  unfold RNG.next_bounded. destruct (RNG.next g) as [v g']. cbn [fst].
  pose proof (Z.mod_pos_bound v 1024 ltac:(lia)) as H.
  rewrite to_uint16_small; lia.
Qed.

(** Outside a spike the sample is baseline + jitter + artifact as integers:
    no conversion wraps, and neither clamp changes the value. *)
Lemma quiet_sample (st : EmgState) (noise ph : Z) :
  0 <= noise <= 1023 ->
  let '(baseline, amplitude) :=
    match st with
    | Relaxed => (200, 50)
    | Intermediate => (620, 30)
    | Clenched => (940, 10)
    end in
  let jitter := to_int16 (noise mod (2 * amplitude) - amplitude) in
  let artifact := if ph mod 256 <? 128 then 3 else -3 in
  let signal := to_int16 (baseline + jitter + artifact) in
  let signal' := if signal <? 0 then 0 else signal in
  let signal'' := if signal' >? 1023 then 1023 else signal' in
  to_uint16 signal'' = baseline + (noise mod (2 * amplitude) - amplitude)
                       + artifact /\
  baseline - amplitude - 3 <= to_uint16 signal''
    <= baseline + amplitude + 2.
Proof.
  intros Hn.
  destruct st; cbv zeta beta iota;
    match goal with
    | |- context [noise mod ?k] =>
        pose proof (Z.mod_pos_bound noise k ltac:(lia)) as Hm;
        set (j := noise mod k) in *
    end;
    destruct (ph mod 256 <? 128);
    (rewrite (to_int16_small (j - _)) by lia);
    (rewrite (to_int16_small (_ + (j - _) + _)) by lia);
    match goal with
    | |- context [?s <? 0] =>
        replace (s <? 0) with false by (symmetry; apply Z.ltb_ge; lia)
    end;
    match goal with
    | |- context [?s >? 1023] =>
        replace (s >? 1023) with false
          by (symmetry; rewrite Z.gtb_ltb; apply Z.ltb_ge; lia)
    end;
    rewrite to_uint16_small by lia; lia.
Qed.

Lemma emg_next_cases (sim : EMGSimulator.t) :
  let noise :=
    to_uint16 (fst (RNG.next_bounded (EMGSimulator.number_generator sim)
                      1024)) in
  let r := EMGSimulator.next sim in
  let st := EMGSimulator.emg_state (snd r) in
  let sp :=
    if (EMGSimulator.spike_remaining sim =? 0) && (noise mod 200 =? 0)
    then to_uint8 (noise mod 5 + 1)
    else EMGSimulator.spike_remaining sim in
  EMGSimulator.step_count (snd r) =
    to_uint32 (EMGSimulator.step_count sim + 1) /\
  EMGSimulator.phase (snd r) = to_uint16 (EMGSimulator.phase sim + 17) /\
  EMGSimulator.number_generator (snd r) =
    snd (RNG.next (EMGSimulator.number_generator sim)) /\
  (to_uint32 (EMGSimulator.step_count sim + 1) mod 1000 <> 0 ->
   st = EMGSimulator.emg_state sim) /\
  ((sp >? 0) = true /\ fst r = 1023 /\
   EMGSimulator.spike_remaining (snd r) = to_uint8 (sp - 1)
   \/
   (sp >? 0) = false /\ EMGSimulator.spike_remaining (snd r) = sp /\
   match st with
   | Relaxed => 147 <= fst r <= 252
   | Intermediate => 587 <= fst r <= 652
   | Clenched => 927 <= fst r <= 952
   end).
Proof.
  cbv zeta. pose proof (noise_range (EMGSimulator.number_generator sim)) as Hn.
  assert (Hg : snd (RNG.next_bounded (EMGSimulator.number_generator sim) 1024)
               = snd (RNG.next (EMGSimulator.number_generator sim))).
  { unfold RNG.next_bounded.
    destruct (RNG.next (EMGSimulator.number_generator sim)); reflexivity. }
  unfold EMGSimulator.next.
  destruct (RNG.next_bounded (EMGSimulator.number_generator sim) 1024)
    as [v g'].
  cbn [fst snd] in Hn, Hg. cbn [fst]. subst g'.
  set (noise := to_uint16 v) in *.
  set (sc := to_uint32 (EMGSimulator.step_count sim + 1)).
  set (ph := to_uint16 (EMGSimulator.phase sim + 17)).
  match goal with
  | |- context [if (?a && ?b)%bool then ?x else ?y] =>
      set (sp := if (a && b)%bool then x else y)
  end.
  match goal with
  | |- context [if sc mod 1000 =? 0 then ?x else ?y] =>
      set (st := if sc mod 1000 =? 0 then x else y);
      assert (Hst : sc mod 1000 <> 0 -> st = EMGSimulator.emg_state sim)
        by (intros Hne; subst st; apply Z.eqb_neq in Hne; rewrite Hne;
            reflexivity)
  end.
  clearbody st sp.
  destruct (sp >? 0) eqn:Esp.
  - cbn [fst snd EMGSimulator.step_count EMGSimulator.phase
         EMGSimulator.number_generator EMGSimulator.emg_state
         EMGSimulator.spike_remaining].
    repeat split; auto.
  - pose proof (quiet_sample st noise ph Hn) as Hq.
    destruct st; cbv zeta beta iota in Hq |- *;
      cbn [fst snd EMGSimulator.step_count EMGSimulator.phase
           EMGSimulator.number_generator EMGSimulator.emg_state
           EMGSimulator.spike_remaining];
      (repeat split; auto); right; repeat split; lia.
Qed.

Lemma samples_step (n : nat) (sim : EMGSimulator.t) :
  samples (S n) sim =
  (fst (EMGSimulator.next sim)
     :: fst (samples n (snd (EMGSimulator.next sim))),
   snd (samples n (snd (EMGSimulator.next sim)))).
Proof.
  cbn [samples]. destruct (EMGSimulator.next sim) as [x sim'].
  cbn [fst snd]. destruct (samples n sim') as [xs sim'']. reflexivity.
Qed.

Lemma emg_band (sim : EMGSimulator.t) :
  let r := EMGSimulator.next sim in
  fst r = 1023 \/
  match EMGSimulator.emg_state (snd r) with
  | Relaxed => 147 <= fst r <= 252
  | Intermediate => 587 <= fst r <= 652
  | Clenched => 927 <= fst r <= 952
  end.
Proof.
  cbv zeta.
  destruct (emg_next_cases sim)
    as (_ & _ & _ & _ & [(_ & H & _) | (_ & _ & H)]); cbv zeta in H.
  - left. exact H.
  - right. exact H.
Qed.

Lemma emg_next_exact (sim : EMGSimulator.t) :
  let noise :=
    to_uint16 (fst (RNG.next_bounded (EMGSimulator.number_generator sim)
                      1024)) in
  let r := EMGSimulator.next sim in
  let st := EMGSimulator.emg_state (snd r) in
  let ph := EMGSimulator.phase (snd r) in
  let sp :=
    if (EMGSimulator.spike_remaining sim =? 0) && (noise mod 200 =? 0)
    then to_uint8 (noise mod 5 + 1)
    else EMGSimulator.spike_remaining sim in
  let baseline :=
    match st with Relaxed => 200 | Intermediate => 620 | Clenched => 940 end in
  let amplitude :=
    match st with Relaxed => 50 | Intermediate => 30 | Clenched => 10 end in
  ((sp >? 0) = true -> fst r = 1023) /\
  ((sp >? 0) = false ->
   fst r = baseline + (noise mod (2 * amplitude) - amplitude)
           + (if ph mod 256 <? 128 then 3 else -3)).
Proof.
  cbv zeta. pose proof (noise_range (EMGSimulator.number_generator sim)) as Hn.
  unfold EMGSimulator.next.
  destruct (RNG.next_bounded (EMGSimulator.number_generator sim) 1024)
    as [v g'].
  cbn [fst snd] in Hn. cbn [fst].
  set (noise := to_uint16 v) in *.
  set (sc := to_uint32 (EMGSimulator.step_count sim + 1)).
  set (ph := to_uint16 (EMGSimulator.phase sim + 17)).
  match goal with
  | |- context [if (?a && ?b)%bool then ?x else ?y] =>
      set (sp := if (a && b)%bool then x else y)
  end.
  match goal with
  | |- context [if sc mod 1000 =? 0 then ?x else ?y] =>
      set (st := if sc mod 1000 =? 0 then x else y)
  end.
  clearbody st sp.
  destruct (sp >? 0) eqn:Esp.
  - cbn [fst]. split; [reflexivity | discriminate].
  - pose proof (quiet_sample st noise ph Hn) as Hq.
    destruct st; cbv zeta beta iota in Hq |- *;
      cbn [fst snd EMGSimulator.emg_state EMGSimulator.phase];
      (split; [discriminate | intros _; apply Hq]).
Qed.

(** X14.  Every sample of the simulator, from any simulator state and any
    generator, is either the spike value 1023 or lies in the band of the
    state the call leaves: 147..252 relaxed, 587..652 intermediate, 927..952
    clenched; so a sample is always within 147..1023.  The value 1023 comes
    from the spike branch (a spike pending after the update of
    [spike_remaining]); outside a spike the sample is exactly the integer
    [baseline + (noise % (2 * amplitude) - amplitude) + artifact]: neither
    clamp of [next()], nor a conversion, changes the value. *)
Theorem emg_sample_band (sim : EMGSimulator.t) :
  let noise :=
    to_uint16 (fst (RNG.next_bounded (EMGSimulator.number_generator sim)
                      1024)) in
  let r := EMGSimulator.next sim in
  let st := EMGSimulator.emg_state (snd r) in
  let ph := EMGSimulator.phase (snd r) in
  let sp :=
    if (EMGSimulator.spike_remaining sim =? 0) && (noise mod 200 =? 0)
    then to_uint8 (noise mod 5 + 1)
    else EMGSimulator.spike_remaining sim in
  let baseline :=
    match st with Relaxed => 200 | Intermediate => 620 | Clenched => 940 end in
  let amplitude :=
    match st with Relaxed => 50 | Intermediate => 30 | Clenched => 10 end in
  (fst r = 1023 \/
   match st with
   | Relaxed => 147 <= fst r <= 252
   | Intermediate => 587 <= fst r <= 652
   | Clenched => 927 <= fst r <= 952
   end) /\
  147 <= fst r <= 1023 /\
  ((sp >? 0) = true -> fst r = 1023) /\
  ((sp >? 0) = false ->
   fst r = baseline + (noise mod (2 * amplitude) - amplitude)
           + (if ph mod 256 <? 128 then 3 else -3)).
Proof.
  cbv zeta. pose proof (emg_band sim) as H. cbv zeta in H.
  pose proof (emg_next_exact sim) as [X1 X2]. cbv zeta in X1, X2.
  split; [exact H |]. split; [| split; assumption].
  destruct H as [H | H].
  - rewrite H. lia.
  - destruct (EMGSimulator.emg_state (snd (EMGSimulator.next sim))); lia.
Qed.

Lemma spike_one_step (sim : EMGSimulator.t) :
  EMGSimulator.spike_remaining sim = 0 ->
  let noise :=
    to_uint16 (fst (RNG.next_bounded (EMGSimulator.number_generator sim)
                      1024)) in
  EMGSimulator.spike_remaining (snd (EMGSimulator.next sim)) = 0 /\
  (fst (EMGSimulator.next sim) = 1023 <-> noise mod 200 = 0).
Proof.
  intros H0 noise.
  destruct (emg_next_cases sim) as (_ & _ & _ & _ & Hc).
  cbv zeta in Hc. fold noise in Hc. rewrite H0 in Hc.
  change (0 =? 0) with true in Hc. cbn [andb] in Hc.
  destruct (noise mod 200 =? 0) eqn:E.
  - apply Z.eqb_eq in E.
    assert (E5 : noise mod 5 = 0).
    { rewrite <- (Z.mod_mod_divide noise 200 5) by (exists 40; reflexivity).
      rewrite E. reflexivity. }
    rewrite E5 in Hc. change (to_uint8 (0 + 1)) with 1 in Hc.
    destruct Hc as [(_ & H1 & H2) | (Hf & _)]; [| discriminate Hf].
    split; [exact H2 |]. split; intros _; assumption.
  - apply Z.eqb_neq in E.
    destruct Hc as [(Hf & _) | (_ & H1 & H2)]; [discriminate Hf |].
    split; [exact H1 |]. split; intros H; [| contradiction].
    rewrite H in H2.
    destruct (EMGSimulator.emg_state (snd (EMGSimulator.next sim))); lia.
Qed.

(** X15.  A spike lasts one sample.  [next()] draws a spike length
    [noise % 5 + 1], but only when [noise % 200 == 0], where that length is
    always 1.  So from a simulator with no spike pending (as [new] builds
    it), after any number of samples no spike is pending; and such a
    simulator returns 1023 exactly when the noise it draws is a multiple of
    200. *)
Theorem spike_lasts_one_sample (n : nat) (sim : EMGSimulator.t) :
  EMGSimulator.spike_remaining sim = 0 ->
  EMGSimulator.spike_remaining (snd (samples n sim)) = 0 /\
  (fst (EMGSimulator.next sim) = 1023 <->
   to_uint16 (fst (RNG.next_bounded (EMGSimulator.number_generator sim)
                     1024)) mod 200 = 0).
Proof.
  intros H0. split; [| apply (spike_one_step sim H0)].
  revert sim H0. induction n as [| n IH]; intros sim H0.
  - exact H0.
  - rewrite samples_step. cbn [snd]. apply IH.
    apply (spike_one_step sim H0).
Qed.

Lemma spike_lasts_one_sample_witness :
  EMGSimulator.spike_remaining
    (snd (samples 5 (EMGSimulator.new (RNG.new 42)))) = 0.
Proof.
  refine (proj1 (spike_lasts_one_sample 5 (EMGSimulator.new (RNG.new 42))
                   eq_refl)).
Defined.



(** ** [RNG.next] is a permutation of the 32-bit values *)

Lemma mul_step_inj (a b : Z) :
  0 <= a < 2 ^ 32 -> 0 <= b < 2 ^ 32 ->
  to_uint32 (a * 0x6C8E9CF5) = to_uint32 (b * 0x6C8E9CF5) -> a = b.
Proof.
  intros Ha Hb H.
  assert (I : forall x, to_uint32 (to_uint32 (x * 0x6C8E9CF5) * 0xFFE02F5D)
                        = to_uint32 x).
  { intros x. unfold to_uint32. rewrite Z.mul_mod_idemp_l by lia.
    rewrite <- Z.mul_assoc, <- Z.mul_mod_idemp_r by lia.
    change ((0x6C8E9CF5 * 0xFFE02F5D) mod 2 ^ 32) with 1.
    rewrite Z.mul_1_r. reflexivity. }
  rewrite <- (to_uint32_small a Ha), <- (to_uint32_small b Hb).
  rewrite <- (I a), <- (I b), H. reflexivity.
Qed.

Lemma add_step_inj (k a b : Z) :
  0 <= a < 2 ^ 32 -> 0 <= b < 2 ^ 32 ->
  to_uint32 (a + k) = to_uint32 (b + k) -> a = b.
Proof.
  intros Ha Hb H.
  assert (I : forall x, to_uint32 (to_uint32 (x + k) - k) = to_uint32 x).
  { intros x. unfold to_uint32. rewrite Zminus_mod_idemp_l.
    f_equal. lia. }
  rewrite <- (to_uint32_small a Ha), <- (to_uint32_small b Hb).
  rewrite <- (I a), <- (I b), H. reflexivity.
Qed.

(** [x ^ (x >> k)] determines [x]: the bits are recovered from the top
    down. *)
Lemma xor_shiftr_inj (k a b : Z) :
  0 < k -> 0 <= a < 2 ^ 32 -> 0 <= b < 2 ^ 32 ->
  Z.lxor a (Z.shiftr a k) = Z.lxor b (Z.shiftr b k) -> a = b.
Proof.
  intros Hk Ha Hb H.
  assert (B : forall (m : nat) (i : Z),
             32 - Z.of_nat m <= i -> Z.testbit a i = Z.testbit b i).
  { induction m as [| m IH]; intros i Hi.
    - rewrite (high_bits_clear 32 a i), (high_bits_clear 32 b i) by lia.
      reflexivity.
    - destruct (Z_lt_le_dec i 0) as [Hneg | Hpos].
      + rewrite !Z.testbit_neg_r by exact Hneg. reflexivity.
      + assert (E : Z.testbit (Z.lxor a (Z.shiftr a k)) i =
                    Z.testbit (Z.lxor b (Z.shiftr b k)) i)
          by (rewrite H; reflexivity).
        rewrite !Z.lxor_spec, !Z.shiftr_spec in E by exact Hpos.
        rewrite (IH (i + k)) in E by lia.
        destruct (Z.testbit a i), (Z.testbit b i), (Z.testbit b (i + k));
          (reflexivity || discriminate E). }
  apply Z.bits_inj'. intros i Hi.
  apply (B (Z.to_nat 32)). lia.
Qed.

(** [x ^ (uint32_t)(x << k)] determines [x]: the bits are recovered from
    the bottom up. *)
Lemma xor_shiftl_inj (k a b : Z) :
  0 < k -> 0 <= a < 2 ^ 32 -> 0 <= b < 2 ^ 32 ->
  Z.lxor a (to_uint32 (Z.shiftl a k)) = Z.lxor b (to_uint32 (Z.shiftl b k)) ->
  a = b.
Proof.
  intros Hk Ha Hb H.
  assert (B : forall (m : nat) (i : Z),
             i < Z.of_nat m -> Z.testbit a i = Z.testbit b i).
  { induction m as [| m IH]; intros i Hi.
    - rewrite !Z.testbit_neg_r by lia. reflexivity.
    - destruct (Z_lt_le_dec i 0) as [Hneg | Hpos].
      + rewrite !Z.testbit_neg_r by exact Hneg. reflexivity.
      + destruct (Z_lt_le_dec i 32) as [Hlo | Hhi].
        * assert (E : Z.testbit (Z.lxor a (to_uint32 (Z.shiftl a k))) i =
                      Z.testbit (Z.lxor b (to_uint32 (Z.shiftl b k))) i)
            by (rewrite H; reflexivity).
          unfold to_uint32 in E.
          rewrite !Z.lxor_spec, !Z.mod_pow2_bits_low, !Z.shiftl_spec in E
            by lia.
          rewrite (IH (i - k)) in E by lia.
          destruct (Z.testbit a i), (Z.testbit b i), (Z.testbit b (i - k));
            (reflexivity || discriminate E).
        * rewrite (high_bits_clear 32 a i), (high_bits_clear 32 b i) by lia.
          reflexivity. }
  apply Z.bits_inj'. intros i Hi.
  apply (B (S (Z.to_nat i))). lia.
Qed.

(** X17.  [RNG::next] never merges two generators: from different 32-bit
    values it returns different numbers (and leaves different values).
    Each of its six steps can be undone, so [next] is a permutation of the
    32-bit values. *)
Theorem next_injective (g g' : RNG.t) :
  0 <= RNG.value g < 2 ^ 32 -> 0 <= RNG.value g' < 2 ^ 32 ->
  fst (RNG.next g) = fst (RNG.next g') -> g = g'.
Proof.
  destruct g as [a], g' as [b]. cbn [RNG.value]. intros Ha Hb.
  unfold RNG.next. cbn [RNG.value fst]. cbv zeta.
  set (a1 := to_uint32 (a * 0x6C8E9CF5)).
  set (b1 := to_uint32 (b * 0x6C8E9CF5)).
  set (a2 := Z.lxor a1 (Z.shiftr a1 13)).
  set (b2 := Z.lxor b1 (Z.shiftr b1 13)).
  set (a3 := to_uint32 (a2 + 0xB5297A4D)).
  set (b3 := to_uint32 (b2 + 0xB5297A4D)).
  set (a4 := Z.lxor a3 (to_uint32 (Z.shiftl a3 17))).
  set (b4 := Z.lxor b3 (to_uint32 (Z.shiftl b3 17))).
  set (a5 := to_uint32 (a4 - 0xD6E8FEB8)).
  set (b5 := to_uint32 (b4 - 0xD6E8FEB8)).
  intros H.
  assert (R1 : 0 <= a1 < 2 ^ 32 /\ 0 <= b1 < 2 ^ 32)
    by (split; apply to_uint32_range).
  assert (R2 : 0 <= a2 < 2 ^ 32 /\ 0 <= b2 < 2 ^ 32)
    by (split; apply lxor_range; try apply shiftr_range; lia).
  assert (R3 : 0 <= a3 < 2 ^ 32 /\ 0 <= b3 < 2 ^ 32)
    by (split; apply to_uint32_range).
  assert (R4 : 0 <= a4 < 2 ^ 32 /\ 0 <= b4 < 2 ^ 32)
    by (split; apply lxor_range; try apply to_uint32_range; lia).
  assert (R5 : 0 <= a5 < 2 ^ 32 /\ 0 <= b5 < 2 ^ 32)
    by (split; apply to_uint32_range).
  apply xor_shiftr_inj in H; [| lia | tauto | tauto].
  apply (add_step_inj (- 0xD6E8FEB8)) in H; [| tauto | tauto].
  apply xor_shiftl_inj in H; [| lia | tauto | tauto].
  apply add_step_inj in H; [| tauto | tauto].
  apply xor_shiftr_inj in H; [| lia | tauto | tauto].
  apply mul_step_inj in H; [| tauto | tauto].
  subst b. reflexivity.
Qed.

Lemma next_injective_witness :
  fst (RNG.next (RNG.mk 42)) = fst (RNG.next (RNG.mk 42)) /\
  RNG.mk 42 = RNG.mk 42.
Proof.
  split; [reflexivity |].
  refine (next_injective (RNG.mk 42) (RNG.mk 42) _ _ eq_refl);
    cbn [RNG.value]; lia.
Defined.

(** * The provisional states, gate by gate *)

Lemma can_change_slow_board (c : ChangeAble.t) (interval : Z) (b : Board) :
  ChangeAble.can_change c = false ->
  snd (can_change c interval b) = snd (millis b).
Proof.
  destruct c as [f t]. cbn [ChangeAble.can_change]. intros ->.
  cbv beta iota zeta delta [can_change millis bind ret
                            ChangeAble.can_change ChangeAble.last_time].
  cbv beta iota. split_ifs; reflexivity.
Qed.

Ltac unfold_switch_keep_check :=
  cbv beta iota zeta delta
    [state_switch and_then default_change_able millis bind ret
     set_state set_change enum_value state change pin HIGH LOW fst snd];
  eval_eqb; cbv beta iota.

(** X18.  The cooldown as written, for a gate that is not eligible (no
    reachable debouncer has one) with an [unsigned long] [last_time].  In
    [PossibleHigh] with a sample above the threshold, and in [PossibleLow]
    with a sample at or below it, the poll commits ([High] and [true],
    resp. [Low] and [false], gate reset to [{true, second clock reading}])
    exactly when the check of [can_change] on the first clock reading
    succeeds, and otherwise returns the debouncer as it was with the
    previous output. *)
Theorem provisional_waits_when_not_eligible (d : Debouncer) (b : Board) :
  ChangeAble.can_change (change d) = false ->
  0 <= ChangeAble.last_time (change d) <= MAX_UNSIGNED_LONG ->
  let sample := analog_in b (pin_reads b) (pin d) in
  let now := to_ulong (clock b (clock_reads b)) in
  let last := ChangeAble.last_time (change d) in
  let enough :=
    if now <? last
    then MAX_UNSIGNED_LONG - last + now >? CHANGE_STATE_INTERVAL
    else now - last >=? CHANGE_STATE_INTERVAL in
  let reset := ChangeAble.mk true (to_ulong (clock b (S (clock_reads b)))) in
  let r := DebounceIno.is_high d b in
  (state d = PossibleHigh -> sample > 155 ->
   fst r = if enough then (true, mkDebouncer High reset (pin d))
           else (false, d)) /\
  (state d = PossibleLow -> sample <= 155 ->
   fst r = if enough then (false, mkDebouncer Low reset (pin d))
           else (true, d)).
Proof.
  intros Hc Hl. cbv zeta.
  destruct (analog_is_high_board d b) as (out & Ho & E). cbv zeta in Ho, E.
  rewrite E. clear E. cbn [fst].
  match goal with
  | |- context [state_switch ?ci d ?b1] =>
      pose proof (can_change_slow (change d) CHANGE_STATE_INTERVAL b1 Hc Hl)
        as [S1 _];
      pose proof (can_change_slow_board (change d) CHANGE_STATE_INTERVAL b1 Hc)
        as S2
  end.
  cbv zeta in S1. cbn [clock clock_reads] in S1.
  destruct d as [s c p]. cbn [state change pin] in *.
  split; intros -> Hs.
  - apply (proj2 (proj1 (threshold_spec _))) in Hs. rewrite Hs in *.
    revert Ho. unfold_switch_keep_check.
    match goal with
    | |- context [can_change c CHANGE_STATE_INTERVAL ?b1] =>
        destruct (can_change c CHANGE_STATE_INTERVAL b1) as [[ok c'] b2]
    end.
    cbn [fst snd] in S1, S2. subst ok b2. cbn [millis snd clock clock_reads].
    match goal with
    | |- context [if ?e then _ else _] => destruct e
    end; cbv beta iota; intros Ho; injection Ho as <-; reflexivity.
  - apply (proj2 (proj2 (threshold_spec _))) in Hs. rewrite Hs in *.
    revert Ho. unfold_switch_keep_check.
    match goal with
    | |- context [can_change c CHANGE_STATE_INTERVAL ?b1] =>
        destruct (can_change c CHANGE_STATE_INTERVAL b1) as [[ok c'] b2]
    end.
    cbn [fst snd] in S1, S2. subst ok b2. cbn [millis snd clock clock_reads].
    match goal with
    | |- context [if ?e then _ else _] => destruct e
    end; cbv beta iota; intros Ho; injection Ho as <-; reflexivity.
Qed.

Lemma provisional_waits_when_not_eligible_witness :
  let d := mkDebouncer PossibleHigh (ChangeAble.mk false 1000) 17 in
  fst (DebounceIno.is_high d (board_of [1249; 1250] [600])) = (false, d) /\
  fst (DebounceIno.is_high d (board_of [1250; 1251] [600])) =
    (true, mkDebouncer High (ChangeAble.mk true 1251) 17).
Proof.
  intros d.
  assert (Hl : 0 <= ChangeAble.last_time (change d) <= MAX_UNSIGNED_LONG)
    by (vm_compute; split; discriminate).
  split.
  - refine (proj1 (provisional_waits_when_not_eligible d
                     (board_of [1249; 1250] [600]) eq_refl Hl) eq_refl _).
    vm_compute. reflexivity.
  - refine (proj1 (provisional_waits_when_not_eligible d
                     (board_of [1250; 1251] [600]) eq_refl Hl) eq_refl _).
    vm_compute. reflexivity.
Defined.

(** X19.  Cancelling needs no cooldown and no check.  In [PossibleHigh] a
    sample at or below the threshold gives [Low] and [false]; in
    [PossibleLow] a sample above it gives [High] and [true]; whatever the
    gate, with one clock reading (the one of the reset), which becomes the
    gate's [last_time]. *)
Theorem provisional_cancels_at_once (d : Debouncer) (b : Board) :
  let sample := analog_in b (pin_reads b) (pin d) in
  let reset := ChangeAble.mk true (to_ulong (clock b (clock_reads b))) in
  let r := DebounceIno.is_high d b in
  (state d = PossibleHigh -> sample <= 155 ->
   fst r = (false, mkDebouncer Low reset (pin d)) /\
   clock_reads (snd r) = S (clock_reads b)) /\
  (state d = PossibleLow -> sample > 155 ->
   fst r = (true, mkDebouncer High reset (pin d)) /\
   clock_reads (snd r) = S (clock_reads b)).
Proof.
  cbv zeta.
  destruct (analog_is_high_board d b) as (out & Ho & E). cbv zeta in Ho, E.
  rewrite E. clear E. cbn [fst snd].
  destruct d as [s [f t] p]. cbn [state change pin] in *.
  split; intros -> Hs.
  - apply (proj2 (proj2 (threshold_spec _))) in Hs. rewrite Hs in *.
    revert Ho. unfold_switch. cbn [clock clock_reads].
    intros Ho; injection Ho as <-; split; reflexivity.
  - apply (proj2 (proj1 (threshold_spec _))) in Hs. rewrite Hs in *.
    revert Ho. unfold_switch. cbn [clock clock_reads].
    intros Ho; injection Ho as <-; split; reflexivity.
Qed.

Lemma provisional_cancels_at_once_witness :
  let d := mkDebouncer PossibleHigh (ChangeAble.mk false 1000) 17 in
  fst (DebounceIno.is_high d (board_of [1001] [100])) =
    (false, mkDebouncer Low (ChangeAble.mk true 1001) 17).
Proof.
  intros d.
  refine (proj1 (proj1 (provisional_cancels_at_once d
                          (board_of [1001] [100])) eq_refl _)).
  vm_compute. discriminate.
Defined.
